(** * GeoMind map quiz: the viewport engine, the quiz controller and the
      hint provider of [src/App.tsx], embedded in Rocq.

    JavaScript numbers are modelled as real numbers: [Math.hypot] is the
    Euclidean norm, [Math.exp] the exponential, [Math.max]/[Math.min] are
    [Rmax]/[Rmin].  Rounding, NaN and the infinities of IEEE doubles are
    outside the model.  Strings are byte strings holding the UTF-8 encoding
    of the source text.  React state and refs of the [App] component are the
    fields of one record that every handler transforms. *)

From Stdlib Require Import Reals Lra Lia List String Ascii ZArith Bool.
Import ListNotations.
Open Scope R_scope.

(* ================================================================== *)
(** ** Data model *)

(** A GeoJSON position [[lon, lat]]. *)
Definition Position : Type := (R * R)%type.
Definition Ring : Type := list Position.

(** [type Geometry]: a tagged union on the [type] field. *)
Inductive Geometry : Type :=
| Polygon (coordinates : list Ring)
| MultiPolygon (coordinates : list (list Ring)).

(** [type GeoProperties]: every field is optional. *)
Record GeoProperties : Type := mkProps {
  ADMIN : option string;
  name : option string;
  ISO_A3 : option string;
  ISO_A2 : option string;
  ISO3166_1_Alpha_2 : option string;
  ISO3166_1_Alpha_3 : option string
}.

Record GeoFeature : Type := mkFeature {
  geometry : Geometry;
  properties : GeoProperties
}.

(** What the parsed JSON may hold in a feature's [geometry] field: one of
    the two polygonal kinds, or an object whose [type] is something else. *)
Inductive RawGeometry : Type :=
| RawKnown (g : Geometry)
| RawOther (kind : string).

(** [type RawGeoFeature]: [geometry] may be missing or [null], [properties]
    may be missing. *)
Record RawGeoFeature : Type := mkRaw {
  raw_geometry : option RawGeometry;
  raw_properties : option GeoProperties
}.

Record Hint : Type := mkHint {
  main_hint : string;
  summary : string
}.

Record Feedback : Type := mkFeedback {
  isCorrect : bool;
  message : string
}.

(* ================================================================== *)
(** ** JavaScript truthiness and [||] on optional strings *)

Definition nonEmpty (s : string) : bool := negb (String.eqb s EmptyString).

(** [Boolean(v)] for [v : string | undefined]. *)
Definition truthy (v : option string) : bool :=
  match v with
  | Some s => nonEmpty s
  | None => false
  end.

(** [a || b] on optional strings. *)
Definition orElse (a b : option string) : option string :=
  if truthy a then a else b.

(** [a || 'literal'] where the literal is a non-empty string. *)
Definition orDefault (a : option string) (d : string) : string :=
  match a with
  | Some s => if nonEmpty s then s else d
  | None => d
  end.

(* ================================================================== *)
(** ** Geometry loader predicates and names *)

(** [isGeometrySupported]: the geometry is present and its [type] is
    ['Polygon'] or ['MultiPolygon']. *)
Definition isGeometrySupported (g : option RawGeometry) : option Geometry :=
  match g with
  | Some (RawKnown geo) => Some geo
  | Some (RawOther _) => None
  | None => None
  end.

(** [hasName]: [Boolean(properties?.ADMIN || properties?.name)]. *)
Definition hasName (p : option GeoProperties) : bool :=
  match p with
  | Some props => truthy (orElse (ADMIN props) (name props))
  | None => false
  end.

Definition getEnglishName (p : GeoProperties) : string :=
  orDefault (orElse (ADMIN p) (name p)) "Unknown".

Definition getCountryId (p : GeoProperties) : string :=
  orDefault
    (orElse (ISO_A3 p) (orElse (ISO3166_1_Alpha_3 p) (orElse (name p) (ADMIN p))))
    "unknown".

(** The regular expression [/^[A-Z]{2}$/]. *)
Definition isUpperAZ (c : ascii) : bool :=
  (Nat.leb 65 (nat_of_ascii c) && Nat.leb (nat_of_ascii c) 90)%bool.

Definition isRegionCode (s : string) : bool :=
  match s with
  | String a (String b EmptyString) => (isUpperAZ a && isUpperAZ b)%bool
  | _ => false
  end.

(** What the browser and the build supply: [String.prototype.toUpperCase];
    [Intl.DisplayNames] for Japanese region names ([None] when
    [typeof Intl.DisplayNames] is ['undefined'], the inner option being the
    possibly undefined result of [.of]); and the module constant [apiKey]
    read from [import.meta.env]. *)
Record Host : Type := mkHost {
  toUpperCase : string -> string;
  Intl_DisplayNames : option (string -> option string);
  apiKey : string
}.

Definition getJapaneseName (host : Host) (p : GeoProperties) : string :=
  let rawRegion := orElse (ISO3166_1_Alpha_2 p) (ISO_A2 p) in
  let regionCode := option_map (toUpperCase host) rawRegion in
  match regionCode, Intl_DisplayNames host with
  | Some code, Some displayNames =>
      if (nonEmpty code && isRegionCode code)%bool then
        match displayNames code with
        | Some display => if nonEmpty display then display else getEnglishName p
        | None => getEnglishName p
        end
      else getEnglishName p
  | _, _ => getEnglishName p
  end.

(** [extractPoints]: [coordinates.flat()] for a polygon,
    [coordinates.flatMap(polygon => polygon.flat())] for a multi-polygon. *)
Definition extractPoints (g : Geometry) : list Position :=
  match g with
  | Polygon coordinates => List.concat coordinates
  | MultiPolygon coordinates => flat_map (fun polygon => List.concat polygon) coordinates
  end.

(* ================================================================== *)
(** ** Hint provider: the fallback hint and the coordinate filter *)

Record LatLonBox : Type := mkBox {
  minLat : R;
  maxLat : R;
  minLon : R;
  maxLon : R
}.

(** One iteration of the [for (const [lon, lat] of points)] loop. *)
Definition growBox (b : LatLonBox) (p : Position) : LatLonBox :=
  let '(lon, lat) := p in
  {| minLat := Rmin (minLat b) lat;
     maxLat := Rmax (maxLat b) lat;
     minLon := Rmin (minLon b) lon;
     maxLon := Rmax (maxLon b) lon |}.

(** The loop starts from [Infinity]/[-Infinity]; since
    [Math.min(Infinity, v) = v] and [Math.max(-Infinity, v) = v], its first
    iteration loads the first point, which is where this fold starts. *)
Definition latLonBox (first : Position) (rest : list Position) : LatLonBox :=
  fold_left growBox rest
    {| minLat := snd first; maxLat := snd first;
       minLon := fst first; maxLon := fst first |}.

Definition latLabelOf (centerLat : R) : string :=
  if Rge_dec centerLat 0 then "北半球" else "南半球".

Definition lonLabelOf (centerLon : R) : string :=
  if Rge_dec centerLon 0 then "東半球" else "西半球".

Definition sizeLabelOf (extentArea : R) : string :=
  if Rlt_dec extentArea 20 then "小さめ"
  else if Rlt_dec extentArea 80 then "中規模"
  else "広い".

(** [feature.geometry.type === 'MultiPolygon' &&
     feature.geometry.coordinates.length > 1]. *)
Definition shapeLabelOf (g : Geometry) : string :=
  match g with
  | MultiPolygon coordinates =>
      if Nat.ltb 1 (List.length coordinates) then "島が点在する国"
      else "ひと続きの陸地を持つ国"
  | Polygon _ => "ひと続きの陸地を持つ国"
  end.

Definition buildFallbackHint (host : Host) (feature : GeoFeature) : Hint :=
  let points := extractPoints (geometry feature) in
  let name := getJapaneseName host (properties feature) in
  match points with
  | [] =>
      {| summary := name ++ " / 解説準備中";
         main_hint := name ++ "の解説を表示するにはAIヒントを生成してください。" |}
  | first :: rest =>
      let b := latLonBox first rest in
      let centerLat := (minLat b + maxLat b) / 2 in
      let centerLon := (minLon b + maxLon b) / 2 in
      let latLabel := latLabelOf centerLat in
      let lonLabel := lonLabelOf centerLon in
      let extentArea := Rabs ((maxLat b - minLat b) * (maxLon b - minLon b)) in
      let sizeLabel := sizeLabelOf extentArea in
      let shapeLabel := shapeLabelOf (geometry feature) in
      {| summary := name ++ " / " ++ latLabel ++ "・" ++ lonLabel ++ " / " ++ sizeLabel;
         main_hint := name ++ "は" ++ latLabel ++ "・" ++ lonLabel ++ "に位置し、"
                        ++ shapeLabel ++ "で、" ++ sizeLabel ++ "な国です。" |}
  end%string.

(** [String.prototype.includes] on byte strings. *)
Fixpoint includes (pattern s : string) : bool :=
  (String.prefix pattern s ||
   match s with
   | EmptyString => false
   | String _ rest => includes pattern rest
   end)%bool.

(** The alternatives of [/緯度|経度|北緯|南緯|東経|西経|°/]. *)
Definition coordinateTerms : list string :=
  ["緯度"; "経度"; "北緯"; "南緯"; "東経"; "西経"; "°"]%string.

Definition isCoordinateHint (value : string) : bool :=
  existsb (fun term => includes term value) coordinateTerms.

(* ================================================================== *)
(** ** Projector *)

Definition MAP_WIDTH : R := 800.
Definition MAP_HEIGHT : R := 400.

Definition project (coords : Position) : R * R :=
  let lon := fst coords in
  let lat := snd coords in
  let x := (lon + 180) * (MAP_WIDTH / 360) in
  let y := (90 - lat) * (MAP_HEIGHT / 180) in
  (x, y).

Record Bounds : Type := mkBounds {
  minX : R;
  maxX : R;
  minY : R;
  maxY : R
}.

Definition growBounds (b : Bounds) (p : Position) : Bounds :=
  let '(x, y) := project p in
  {| minX := Rmin (minX b) x;
     maxX := Rmax (maxX b) x;
     minY := Rmin (minY b) y;
     maxY := Rmax (maxY b) y |}.

(** As in [latLonBox], the fold starts after the first iteration. *)
Definition getProjectedBounds (feature : GeoFeature) : option Bounds :=
  match extractPoints (geometry feature) with
  | [] => None
  | first :: rest =>
      let '(x, y) := project first in
      Some (fold_left growBounds rest
              {| minX := x; maxX := x; minY := y; maxY := y |})
  end.

(* ================================================================== *)
(** ** Geometry loader: the filter of [fetchGeoData] *)

Definition emptyProperties : GeoProperties :=
  mkProps None None None None None None.

(** The callback of [.map]: [null] unless the geometry is supported and the
    feature is named; [feature.properties ?? {}] otherwise. *)
Definition toGeoFeature (feature : RawGeoFeature) : option GeoFeature :=
  match isGeometrySupported (raw_geometry feature) with
  | Some g =>
      if hasName (raw_properties feature) then
        Some {| geometry := g;
                properties := match raw_properties feature with
                              | Some p => p
                              | None => emptyProperties
                              end |}
      else None
  | None => None
  end.

(** [.filter(feature => feature !== null)]. *)
Fixpoint keepNonNull (l : list (option GeoFeature)) : list GeoFeature :=
  match l with
  | [] => []
  | Some f :: rest => f :: keepNonNull rest
  | None :: rest => keepNonNull rest
  end.

(** [data.features ?? []]. *)
Definition rawFeatures (features : option (list RawGeoFeature)) : list RawGeoFeature :=
  match features with
  | Some l => l
  | None => []
  end.

Definition validFeatures (features : option (list RawGeoFeature)) : list GeoFeature :=
  keepNonNull (map toGeoFeature (rawFeatures features)).

(* ================================================================== *)
(** ** Component state *)

Record Point : Type := mkPoint {
  pt_x : R;
  pt_y : R
}.

(** The [transform] state: [{ x, y, scale }]. *)
Record Transform : Type := mkTransform {
  tr_x : R;
  tr_y : R;
  scale : R
}.

Record DragState : Type := mkDrag {
  start : option Point;
  moved : bool
}.

(** [Map<number, { x, y }>]: a JavaScript [Map] iterates in insertion order
    and [getCenter]/[getDist] read its first two values, so the map is an
    association list in insertion order with distinct keys. *)
Definition PointerMap : Type := list (Z * Point).

Fixpoint map_has (id : Z) (m : PointerMap) : bool :=
  match m with
  | [] => false
  | (k, _) :: rest => (Z.eqb k id || map_has id rest)%bool
  end.

(** [Map.prototype.set]: an existing key keeps its place, a new key goes
    last. *)
Fixpoint map_set (id : Z) (v : Point) (m : PointerMap) : PointerMap :=
  match m with
  | [] => [(id, v)]
  | (k, w) :: rest =>
      if Z.eqb k id then (k, v) :: rest else (k, w) :: map_set id v rest
  end.

Fixpoint map_delete (id : Z) (m : PointerMap) : PointerMap :=
  match m with
  | [] => []
  | (k, w) :: rest =>
      if Z.eqb k id then rest else (k, w) :: map_delete id rest
  end.

Definition map_size (m : PointerMap) : nat := List.length m.

(** [Array.from(pts.values())]. *)
Definition map_values (m : PointerMap) : list Point := map snd m.

(** The document written by [addDoc]. *)
Record QuizHistoryItem : Type := mkHistory {
  countryName : string;
  history_isCorrect : bool;
  hintText : string;
  timestamp : string
}.

(** The [useState] cells and [useRef] cells of [App] that the handlers
    below read or write, and two logs of what leaves the component: the
    country names posted to the hint service and the documents handed to
    [addDoc]. *)
Record AppState : Type := mkApp {
  user : option string;
  geoData : option (list GeoFeature);
  currentCountry : option GeoFeature;
  hint : option Hint;
  loading : bool;
  feedback : option Feedback;
  score : Z;
  selectedId : option string;
  isHintMinimized : bool;
  transform : Transform;
  pointers : PointerMap;
  lastCenter : option Point;
  lastDist : R;
  dragState : DragState;
  suppressClick : bool;
  hintRequests : list string;
  historyWrites : list QuizHistoryItem
}.

Definition setCurrentCountry (v : option GeoFeature) (s : AppState) : AppState :=
  mkApp (user s) (geoData s) v (hint s) (loading s) (feedback s) (score s)
    (selectedId s) (isHintMinimized s) (transform s) (pointers s)
    (lastCenter s) (lastDist s) (dragState s) (suppressClick s)
    (hintRequests s) (historyWrites s).

Definition setHint (v : option Hint) (s : AppState) : AppState :=
  mkApp (user s) (geoData s) (currentCountry s) v (loading s) (feedback s)
    (score s) (selectedId s) (isHintMinimized s) (transform s) (pointers s)
    (lastCenter s) (lastDist s) (dragState s) (suppressClick s)
    (hintRequests s) (historyWrites s).

Definition setLoading (v : bool) (s : AppState) : AppState :=
  mkApp (user s) (geoData s) (currentCountry s) (hint s) v (feedback s)
    (score s) (selectedId s) (isHintMinimized s) (transform s) (pointers s)
    (lastCenter s) (lastDist s) (dragState s) (suppressClick s)
    (hintRequests s) (historyWrites s).

Definition setFeedback (v : option Feedback) (s : AppState) : AppState :=
  mkApp (user s) (geoData s) (currentCountry s) (hint s) (loading s) v
    (score s) (selectedId s) (isHintMinimized s) (transform s) (pointers s)
    (lastCenter s) (lastDist s) (dragState s) (suppressClick s)
    (hintRequests s) (historyWrites s).

Definition setScore (v : Z) (s : AppState) : AppState :=
  mkApp (user s) (geoData s) (currentCountry s) (hint s) (loading s)
    (feedback s) v (selectedId s) (isHintMinimized s) (transform s)
    (pointers s) (lastCenter s) (lastDist s) (dragState s) (suppressClick s)
    (hintRequests s) (historyWrites s).

Definition setSelectedId (v : option string) (s : AppState) : AppState :=
  mkApp (user s) (geoData s) (currentCountry s) (hint s) (loading s)
    (feedback s) (score s) v (isHintMinimized s) (transform s) (pointers s)
    (lastCenter s) (lastDist s) (dragState s) (suppressClick s)
    (hintRequests s) (historyWrites s).

Definition setIsHintMinimized (v : bool) (s : AppState) : AppState :=
  mkApp (user s) (geoData s) (currentCountry s) (hint s) (loading s)
    (feedback s) (score s) (selectedId s) v (transform s) (pointers s)
    (lastCenter s) (lastDist s) (dragState s) (suppressClick s)
    (hintRequests s) (historyWrites s).

Definition setTransform (v : Transform) (s : AppState) : AppState :=
  mkApp (user s) (geoData s) (currentCountry s) (hint s) (loading s)
    (feedback s) (score s) (selectedId s) (isHintMinimized s) v (pointers s)
    (lastCenter s) (lastDist s) (dragState s) (suppressClick s)
    (hintRequests s) (historyWrites s).

Definition setPointers (v : PointerMap) (s : AppState) : AppState :=
  mkApp (user s) (geoData s) (currentCountry s) (hint s) (loading s)
    (feedback s) (score s) (selectedId s) (isHintMinimized s) (transform s)
    v (lastCenter s) (lastDist s) (dragState s) (suppressClick s)
    (hintRequests s) (historyWrites s).

Definition setLastCenter (v : option Point) (s : AppState) : AppState :=
  mkApp (user s) (geoData s) (currentCountry s) (hint s) (loading s)
    (feedback s) (score s) (selectedId s) (isHintMinimized s) (transform s)
    (pointers s) v (lastDist s) (dragState s) (suppressClick s)
    (hintRequests s) (historyWrites s).

Definition setLastDist (v : R) (s : AppState) : AppState :=
  mkApp (user s) (geoData s) (currentCountry s) (hint s) (loading s)
    (feedback s) (score s) (selectedId s) (isHintMinimized s) (transform s)
    (pointers s) (lastCenter s) v (dragState s) (suppressClick s)
    (hintRequests s) (historyWrites s).

Definition setDragState (v : DragState) (s : AppState) : AppState :=
  mkApp (user s) (geoData s) (currentCountry s) (hint s) (loading s)
    (feedback s) (score s) (selectedId s) (isHintMinimized s) (transform s)
    (pointers s) (lastCenter s) (lastDist s) v (suppressClick s)
    (hintRequests s) (historyWrites s).

Definition setSuppressClick (v : bool) (s : AppState) : AppState :=
  mkApp (user s) (geoData s) (currentCountry s) (hint s) (loading s)
    (feedback s) (score s) (selectedId s) (isHintMinimized s) (transform s)
    (pointers s) (lastCenter s) (lastDist s) (dragState s) v
    (hintRequests s) (historyWrites s).

Definition setHintRequests (v : list string) (s : AppState) : AppState :=
  mkApp (user s) (geoData s) (currentCountry s) (hint s) (loading s)
    (feedback s) (score s) (selectedId s) (isHintMinimized s) (transform s)
    (pointers s) (lastCenter s) (lastDist s) (dragState s) (suppressClick s)
    v (historyWrites s).

Definition setHistoryWrites (v : list QuizHistoryItem) (s : AppState) : AppState :=
  mkApp (user s) (geoData s) (currentCountry s) (hint s) (loading s)
    (feedback s) (score s) (selectedId s) (isHintMinimized s) (transform s)
    (pointers s) (lastCenter s) (lastDist s) (dragState s) (suppressClick s)
    (hintRequests s) v.

Definition initialState : AppState :=
  {| user := None;
     geoData := None;
     currentCountry := None;
     hint := None;
     loading := false;
     feedback := None;
     score := 0%Z;
     selectedId := None;
     isHintMinimized := false;
     transform := {| tr_x := 0; tr_y := 0; scale := 1 |};
     pointers := [];
     lastCenter := None;
     lastDist := 0;
     dragState := {| start := None; moved := false |};
     suppressClick := false;
     hintRequests := [];
     historyWrites := [] |}.

(* ================================================================== *)
(** ** What the handlers read from the DOM and from events *)

(** [getBBox()] of a rendered path. *)
Record SVGRect : Type := mkSVGRect {
  bbox_x : R;
  bbox_y : R;
  bbox_width : R;
  bbox_height : R
}.

(** The [svg] element: [viewBox.baseVal] and the result of
    [querySelector('path[data-country-id=...]')?.getBBox()]. *)
Record SvgElement : Type := mkSvg {
  viewBox_width : R;
  viewBox_height : R;
  pathBBox : string -> option SVGRect
}.

(** [mapRef.current] when it is not [null]: the corner of
    [getBoundingClientRect()], the client size and [querySelector('svg')]. *)
Record MapDiv : Type := mkMapDiv {
  rect_left : R;
  rect_top : R;
  clientWidth : R;
  clientHeight : R;
  svg : option SvgElement
}.

Record PointerEvent : Type := mkPointerEvent {
  pointerId : Z;
  clientX : R;
  clientY : R
}.

Record WheelEvent : Type := mkWheelEvent {
  wheel_clientX : R;
  wheel_clientY : R;
  deltaY : R
}.

(* ================================================================== *)
(** ** Viewport engine *)

(** [Math.hypot] of two arguments. *)
Definition hypot (a b : R) : R := sqrt (a * a + b * b).

Definition getCenter (pts : PointerMap) : Point :=
  match map_values pts with
  | [a] => {| pt_x := pt_x a; pt_y := pt_y a |}
  | a :: b :: _ =>
      {| pt_x := (pt_x a + pt_x b) / 2; pt_y := (pt_y a + pt_y b) / 2 |}
  | [] => {| pt_x := 0; pt_y := 0 |}
  end.

Definition getDist (pts : PointerMap) : R :=
  match map_values pts with
  | a :: b :: _ => hypot (pt_x a - pt_x b) (pt_y a - pt_y b)
  | _ => 0
  end.

Definition handlePointerDown (e : PointerEvent) (s : AppState) : AppState :=
  let pts := map_set (pointerId e) (mkPoint (clientX e) (clientY e)) (pointers s) in
  let s1 := setLastCenter (Some (getCenter pts)) (setPointers pts s) in
  let s2 := if Nat.eqb (map_size pts) 2 then setLastDist (getDist pts) s1 else s1 in
  if Nat.eqb (map_size pts) 1 then
    setDragState {| start := Some (mkPoint (clientX e) (clientY e)); moved := false |} s2
  else
    setDragState {| start := start (dragState s2); moved := true |} s2.

(** The updater passed to [setTransform] by the pinch branch and by the
    wheel handler (the same text in both): rescale by [factor], clamped to
    [[1, 20]], about the viewport-local point [(cx, cy)]. *)
Definition zoomAbout (cx cy factor : R) (prev : Transform) : Transform :=
  let nextScale := Rmax 1 (Rmin 20 (scale prev * factor)) in
  let k := nextScale / scale prev in
  {| scale := nextScale;
     tr_x := cx - (cx - tr_x prev) * k;
     tr_y := cy - (cy - tr_y prev) * k |}.

(** The single-pointer branch's update of [dragState.current.moved]. *)
Definition trackDrag (e : PointerEvent) (d : DragState) : DragState :=
  match start d with
  | Some st =>
      if moved d then d
      else
        let movedDist := hypot (clientX e - pt_x st) (clientY e - pt_y st) in
        if Rgt_dec movedDist 6 then {| start := start d; moved := true |} else d
  | None => d
  end.

Definition handlePointerMove (mapRef : option MapDiv) (e : PointerEvent)
    (s : AppState) : AppState :=
  match lastCenter s with
  | None => s
  | Some last =>
      if negb (map_has (pointerId e) (pointers s)) then s
      else
        let pts := map_set (pointerId e) (mkPoint (clientX e) (clientY e)) (pointers s) in
        let center := getCenter pts in
        let s1 := setPointers pts s in
        let s2 :=
          if Nat.eqb (map_size pts) 1 then
            let dx := pt_x center - pt_x last in
            let dy := pt_y center - pt_y last in
            let s' := setDragState (trackDrag e (dragState s1)) s1 in
            let prev := transform s' in
            setTransform
              {| tr_x := tr_x prev + dx; tr_y := tr_y prev + dy; scale := scale prev |} s'
          else if Nat.eqb (map_size pts) 2 then
            let s' := setDragState {| start := start (dragState s1); moved := true |} s1 in
            let dist := getDist pts in
            let s'' :=
              match mapRef with
              | Some div =>
                  if Rgt_dec (lastDist s') 0 then
                    let cx := pt_x center - rect_left div in
                    let cy := pt_y center - rect_top div in
                    let scaleFactor := dist / lastDist s' in
                    setTransform (zoomAbout cx cy scaleFactor (transform s')) s'
                  else s'
              | None => s'
              end in
            setLastDist dist s''
          else s1 in
        setLastCenter (Some center) s2
  end.

(** Also the handler of [onPointerCancel]. *)
Definition handlePointerUp (e : PointerEvent) (s : AppState) : AppState :=
  let pts := map_delete (pointerId e) (pointers s) in
  let s1 := setPointers pts s in
  let s2 := if moved (dragState s1) then setSuppressClick true s1 else s1 in
  let s3 :=
    if Nat.eqb (map_size pts) 1 then setLastCenter (Some (getCenter pts)) s2 else s2 in
  if Nat.eqb (map_size pts) 0 then
    setDragState {| start := None; moved := false |} (setLastCenter None s3)
  else if Nat.eqb (map_size pts) 1 then
    setDragState {| start := Some (getCenter pts); moved := false |} s3
  else s3.

Definition handleWheel (mapRef : option MapDiv) (e : WheelEvent)
    (s : AppState) : AppState :=
  match mapRef with
  | None => s
  | Some div =>
      let cx := wheel_clientX e - rect_left div in
      let cy := wheel_clientY e - rect_top div in
      let zoomFactor := exp (- deltaY e * 0.001) in
      setTransform (zoomAbout cx cy zoomFactor (transform s)) s
  end.

Definition resetView (s : AppState) : AppState :=
  setTransform {| tr_x := 0; tr_y := 0; scale := 1 |} s.

(** [v || fallback] on a number: [0] is falsy. *)
Definition numberOr (v fallback : R) : R :=
  if Req_dec_T v 0 then fallback else v.

(** The body of the [requestAnimationFrame] callback once [bounds] is
    known. *)
Definition fitTransform (viewWidth viewHeight containerWidth containerHeight : R)
    (bounds : Bounds) : Transform :=
  let baseScale := Rmin (containerWidth / viewWidth) (containerHeight / viewHeight) in
  let offsetX := (containerWidth - viewWidth * baseScale) / 2 in
  let offsetY := (containerHeight - viewHeight * baseScale) / 2 in
  let padding := 40 in
  let width := Rmax 1 (maxX bounds - minX bounds) in
  let height := Rmax 1 (maxY bounds - minY bounds) in
  let scaleX := (containerWidth - padding * 2) / (width * baseScale) in
  let scaleY := (containerHeight - padding * 2) / (height * baseScale) in
  let nextScale := Rmax 1 (Rmin 20 (Rmin scaleX scaleY)) in
  let centerX := (minX bounds + maxX bounds) / 2 in
  let centerY := (minY bounds + maxY bounds) / 2 in
  let centerCssX := offsetX + centerX * baseScale in
  let centerCssY := offsetY + centerY * baseScale in
  {| scale := nextScale;
     tr_x := containerWidth / 2 - centerCssX * nextScale;
     tr_y := containerHeight / 2 - centerCssY * nextScale |}.

(** The fit-to-region effect, run after a render in which [feedback] and
    [currentCountry] are set. *)
Definition fitToRegion (mapRef : option MapDiv) (s : AppState) : AppState :=
  match feedback s, currentCountry s, mapRef with
  | Some _, Some country, Some div =>
      let targetId := getCountryId (properties country) in
      match svg div with
      | None => s
      | Some svgEl =>
          let bounds :=
            match pathBBox svgEl targetId with
            | Some bbox =>
                Some {| minX := bbox_x bbox;
                        maxX := bbox_x bbox + bbox_width bbox;
                        minY := bbox_y bbox;
                        maxY := bbox_y bbox + bbox_height bbox |}
            | None => getProjectedBounds country
            end in
          match bounds with
          | None => s
          | Some b =>
              let viewWidth := numberOr (viewBox_width svgEl) MAP_WIDTH in
              let viewHeight := numberOr (viewBox_height svgEl) MAP_HEIGHT in
              let containerWidth := clientWidth div in
              let containerHeight := clientHeight div in
              if Req_dec_T containerWidth 0 then s
              else if Req_dec_T containerHeight 0 then s
              else
                setTransform
                  (fitTransform viewWidth viewHeight containerWidth containerHeight b) s
          end
      end
  | _, _, _ => s
  end.

(** Where the rendered layer [translate(x, y) scale(scale)] (origin at the
    top left corner) puts a content coordinate, and the content coordinate
    shown at a viewport-local coordinate. *)
Definition toScreen (translation sc content : R) : R := translation + sc * content.
Definition toContent (translation sc anchor : R) : R := (anchor - translation) / sc.

(* ================================================================== *)
(** ** Quiz controller *)

(** How the awaited part of [generateAIHint] can end: [fetch] or
    [res.json()] rejects; the response carries no (or an empty) text;
    [JSON.parse], or reading a field of what it returns, throws; or the
    text parses to an object with the two string fields of a hint. *)
Inductive HintResponse : Type :=
| FetchRejected
| NoText
| ParseError
| Parsed (parsed : Hint).

(** [generateAIHint] up to its first [await].  Called with [undefined]
    (the [None] case) it throws on [feature.properties] after the two state
    updates, outside the [try], so neither [catch] nor [finally] runs.
    Without an API key the whole function runs here. *)
Definition generateAIHint_begin (host : Host) (feature : option GeoFeature)
    (s : AppState) : AppState :=
  let s1 := setHint None (setLoading true s) in
  match feature with
  | None => s1
  | Some f =>
      let countryName := getEnglishName (properties f) in
      if nonEmpty (apiKey host) then
        setHintRequests (hintRequests s1 ++ [countryName]) s1
      else
        setLoading false (setHint (Some (buildFallbackHint host f)) s1)
  end.

(** [generateAIHint] after the [await]s, with its [catch] and [finally]. *)
Definition generateAIHint_settle (host : Host) (feature : GeoFeature)
    (response : HintResponse) (s : AppState) : AppState :=
  let s1 :=
    match response with
    | FetchRejected => setHint (Some (buildFallbackHint host feature)) s
    | NoText => s
    | ParseError => setHint (Some (buildFallbackHint host feature)) s
    | Parsed parsed =>
        if (isCoordinateHint (main_hint parsed) || isCoordinateHint (summary parsed))%bool
        then setHint (Some (buildFallbackHint host feature)) s
        else setHint (Some parsed) s
    end in
  setLoading false s1.

(** [startNewQuestion]; [pick] is the value of
    [Math.floor(Math.random() * geoData.features.length)], and indexing
    past the end of the array yields [undefined]. *)
Definition startNewQuestion (host : Host) (pick : nat) (s : AppState) : AppState :=
  match geoData s with
  | None => s
  | Some features =>
      let random := nth_error features pick in
      generateAIHint_begin host random
        (setIsHintMinimized false
           (setSelectedId None (setFeedback None (setCurrentCountry random s))))
  end.

Definition isSome {A : Type} (o : option A) : bool :=
  match o with
  | Some _ => true
  | None => false
  end.

(** [hint?.main_hint || '']. *)
Definition hintTextOf (h : option Hint) : string :=
  match h with
  | Some v => main_hint v
  | None => EmptyString
  end.

(** [handleCountryClick]; [now] is [new Date().toISOString()]. *)
Definition handleCountryClick (host : Host) (id name now : string)
    (s : AppState) : AppState :=
  match currentCountry s with
  | None => s
  | Some country =>
      if (isSome (feedback s) || loading s || Nat.ltb 1 (map_size (pointers s)))%bool
      then s
      else if suppressClick s then setSuppressClick false s
      else
        let correctName := getJapaneseName host (properties country) in
        let targetId := getCountryId (properties country) in
        if negb (nonEmpty targetId) then s
        else
          let isCorrect := String.eqb id targetId in
          let s1 := setSelectedId (Some id) s in
          let s2 :=
            setFeedback
              (Some {| isCorrect := isCorrect;
                       message :=
                         if isCorrect then "正解！"
                         else ("違います。そこは「" ++ name ++ "」です。正解は「"
                                 ++ correctName ++ "」です。")%string |}) s1 in
          let s3 := if isCorrect then setScore (score s2 + 10)%Z s2 else s2 in
          match user s3 with
          | Some _ =>
              setHistoryWrites
                (historyWrites s3 ++
                   [{| countryName := correctName;
                       history_isCorrect := isCorrect;
                       hintText := hintTextOf (hint s3);
                       timestamp := now |}]) s3
          | None => s3
          end
  end.

(* ================================================================== *)
(** ** The component as a state machine *)

(** What can happen to the mounted component.  Pointer cancel is delivered
    to [handlePointerUp].  The geometry fetch settles with the raw
    collection; [Authenticated] is [onAuthStateChanged]. *)
Inductive Event : Type :=
| GeoLoaded (features : option (list RawGeoFeature))
| Authenticated (uid : option string)
| PointerDown (e : PointerEvent)
| PointerMove (mapRef : option MapDiv) (e : PointerEvent)
| PointerUp (e : PointerEvent)
| PointerCancel (e : PointerEvent)
| Wheel (mapRef : option MapDiv) (e : WheelEvent)
| ResetClicked
| StartNewQuestion (pick : nat)
| HintSettled (feature : GeoFeature) (response : HintResponse)
| CountryClick (id name now : string)
| FitFrame (mapRef : option MapDiv).

Definition setGeoData (v : option (list GeoFeature)) (s : AppState) : AppState :=
  mkApp (user s) v (currentCountry s) (hint s) (loading s)
    (feedback s) (score s) (selectedId s) (isHintMinimized s) (transform s)
    (pointers s) (lastCenter s) (lastDist s) (dragState s) (suppressClick s)
    (hintRequests s) (historyWrites s).

Definition setUser (v : option string) (s : AppState) : AppState :=
  mkApp v (geoData s) (currentCountry s) (hint s) (loading s)
    (feedback s) (score s) (selectedId s) (isHintMinimized s) (transform s)
    (pointers s) (lastCenter s) (lastDist s) (dragState s) (suppressClick s)
    (hintRequests s) (historyWrites s).

Definition step (host : Host) (s : AppState) (ev : Event) : AppState :=
  match ev with
  | GeoLoaded features =>
      setLoading false (setGeoData (Some (validFeatures features)) s)
  | Authenticated uid => setUser uid s
  | PointerDown e => handlePointerDown e s
  | PointerMove mapRef e => handlePointerMove mapRef e s
  | PointerUp e => handlePointerUp e s
  | PointerCancel e => handlePointerUp e s
  | Wheel mapRef e => handleWheel mapRef e s
  | ResetClicked => resetView s
  | StartNewQuestion pick => startNewQuestion host pick s
  | HintSettled feature response => generateAIHint_settle host feature response s
  | CountryClick id name now => handleCountryClick host id name now s
  | FitFrame mapRef => fitToRegion mapRef s
  end.

Definition run (host : Host) (s : AppState) (evs : list Event) : AppState :=
  fold_left (step host) evs s.

(* ================================================================== *)
(** ** Path builder *)

Record PathDatum : Type := mkPath {
  path_id : string;
  path_name : string;
  path_d : string
}.

(** [Array.prototype.join] on strings. *)
Fixpoint join (sep : string) (parts : list string) : string :=
  match parts with
  | [] => EmptyString
  | part :: rest =>
      match rest with
      | [] => part
      | _ :: _ => part ++ sep ++ join sep rest
      end
  end.

Section PathBuilder.

(** How the host prints a number ([project(point).join(',')] converts
    both coordinates to strings). *)
Variable numberToString : R -> string.

(** [project(point).join(',')]. *)
Definition renderPoint (point : Position) : string :=
  let '(x, y) := project point in
  (numberToString x ++ "," ++ numberToString y)%string.

(** One ring: [`M${ring.map(...).join(' L')}Z`]. *)
Definition renderRing (ring : Ring) : string :=
  ("M" ++ join " L" (map renderPoint ring) ++ "Z")%string.

Definition renderPolygon (poly : list Ring) : string :=
  join " " (map renderRing poly).

(** The outline descriptor [d] of a geometry. *)
Definition outlineOf (g : Geometry) : string :=
  match g with
  | Polygon coordinates => renderPolygon coordinates
  | MultiPolygon coordinates => join " " (map renderPolygon coordinates)
  end.

(** The [useMemo] of [pathData]: nothing without data, and no entry for
    a feature whose outline is the empty string. *)
Definition pathData (host : Host) (geoData : option (list GeoFeature))
  : list PathDatum :=
  match geoData with
  | None => []
  | Some features =>
      flat_map
        (fun feature =>
           let d := outlineOf (geometry feature) in
           if nonEmpty d then
             [{| path_id := getCountryId (properties feature);
                 path_name := getJapaneseName host (properties feature);
                 path_d := d |}]
           else [])
        features
  end.

End PathBuilder.

(** The geometries that get an outline: all but a polygon without rings, a
    multi-polygon without polygons, and a multi-polygon of one polygon
    without rings. *)
Definition hasOutline (g : Geometry) : bool :=
  match g with
  | Polygon [] => false
  | MultiPolygon [] => false
  | MultiPolygon [[]] => false
  | _ => true
  end.

(* ================================================================== *)
(** ** The viewBox variant of the component

    The second variant of [App.tsx] renders the transform by rewriting the
    [viewBox] of the [svg] element, zooms with formulas in SVG coordinates,
    has 1.5 as its smallest scale and drops more features at load time.
    Its pointer bookkeeping, quiz controller and hint provider are those
    above. *)

Module ViewBoxVariant.

(** [useState({ x: 0, y: 0, scale: 1.5 })], also what [resetView]
    installs. *)
Definition initialTransform : Transform :=
  {| tr_x := 0; tr_y := 0; scale := 1.5 |}.

(** The [viewBox] attribute: [min-x], [min-y], [width], [height]. *)
Definition viewBox (t : Transform) : R * R * R * R :=
  (- tr_x t / scale t, - tr_y t / scale t, 800 / scale t, 400 / scale t).

(** The conversion of a viewport-local coordinate to an SVG coordinate
    that both zoom handlers start with:
    [(cx / rect.width) * (800 / transform.scale) + (-transform.x / transform.scale)],
    with 400 and [y] for the other axis.  It takes the [viewBox] to be
    stretched over the whole element; what the browser draws is [shownX]
    and [shownY] below. *)
Definition screenToSvg (viewSize rectSize translation sc c : R) : R :=
  (c / rectSize) * (viewSize / sc) + (- translation / sc).

(** The updater of the pinch branch and of the wheel handler.  [rendered]
    is the [transform] of the render that created the handler, from
    which the SVG point is computed; [prev] is the state the updater
    receives. *)
Definition zoomAbout (rendered : Transform) (rectWidth rectHeight cx cy factor : R)
    (prev : Transform) : Transform :=
  let svgX := screenToSvg 800 rectWidth (tr_x rendered) (scale rendered) cx in
  let svgY := screenToSvg 400 rectHeight (tr_y rendered) (scale rendered) cy in
  let nextScale := Rmax 1.5 (Rmin 20 (scale prev * factor)) in
  let newX := - (svgX - (cx / rectWidth) * (800 / nextScale)) * nextScale in
  let newY := - (svgY - (cy / rectHeight) * (400 / nextScale)) * nextScale in
  {| scale := nextScale; tr_x := newX; tr_y := newY |}.

(** [Math.exp(-e.deltaY * sensitivity)] with the sensitivity chosen by
    the device class. *)
Definition wheelFactor (isTouchDevice : bool) (deltaY : R) : R :=
  let sensitivity := if isTouchDevice then 0.012 else 0.005 in
  exp (- deltaY * sensitivity).

(** The fit computation once [bounds] and the container size are
    known. *)
Definition fitTransform (containerWidth containerHeight : R) (bounds : Bounds)
  : Transform :=
  let padding := 40 in
  let width := Rmax 1 (maxX bounds - minX bounds) in
  let height := Rmax 1 (maxY bounds - minY bounds) in
  let centerX := (minX bounds + maxX bounds) / 2 in
  let centerY := (minY bounds + maxY bounds) / 2 in
  let scaleX := 800 / (width + padding * 2 / containerWidth * 800) in
  let scaleY := 400 / (height + padding * 2 / containerHeight * 400) in
  let nextScale := Rmax 1.5 (Rmin 20 (Rmin scaleX scaleY)) in
  let newViewWidth := 800 / nextScale in
  let newViewHeight := 400 / nextScale in
  let newX := - (centerX - newViewWidth / 2) * nextScale in
  let newY := - (centerY - newViewHeight / 2) * nextScale in
  {| scale := nextScale; tr_x := newX; tr_y := newY |}.

(** Disputed areas, dependencies and overseas territories that the
    variant's loader leaves out. *)
Definition excludeList : list string :=
  ["Scarborough Reef"; "Spratly Islands"; "Paracel Islands"; "Siachen Glacier";
   "Saint Helena"; "Ascension Island"; "Tristan da Cunha"; "Greenland";
   "Faroe Islands"; "French Guiana"; "Guadeloupe"; "Martinique"; "Réunion";
   "Mayotte"; "Saint Pierre and Miquelon"; "New Caledonia"; "French Polynesia";
   "Wallis and Futuna"; "Puerto Rico"; "U.S. Virgin Islands"; "American Samoa";
   "Guam"; "Northern Mariana Islands"; "Gibraltar"; "Falkland Islands";
   "Bermuda"; "Cayman Islands"; "British Virgin Islands";
   "Turks and Caicos Islands"; "Anguilla"; "Montserrat"; "Pitcairn Islands";
   "Aruba"; "Curaçao"; "Sint Maarten"; "Caribbean Netherlands"; "Cook Islands";
   "Niue"; "Tokelau"; "Hong Kong"; "Macao"; "Indian Ocean Territories";
   "Ashmore and Cartier Islands"; "Coral Sea Islands"; "Christmas Island";
   "Cocos Islands"; "Norfolk Island"; "Heard Island and McDonald Islands";
   "Svalbard"; "Jan Mayen"; "Bouvet Island"; "Akrotiri"; "Dhekelia"]%string.

(** [v || ''] on an optional string. *)
Definition orEmpty (v : option string) : string :=
  match v with
  | Some s => s
  | None => EmptyString
  end.

(** [excludeList.has(name) || iso3 === '-99' || iso3 === '-1'] for the
    [name] and [iso3] read from the properties. *)
Definition isExcluded (p : GeoProperties) : bool :=
  let name := orEmpty (orElse (ADMIN p) (name p)) in
  let iso3 := orEmpty (orElse (ISO_A3 p) (ISO3166_1_Alpha_3 p)) in
  (existsb (String.eqb name) excludeList
   || String.eqb iso3 "-99" || String.eqb iso3 "-1")%bool.

(** The callback of [.map] in the variant's [fetchGeoData]. *)
Definition toGeoFeature (feature : RawGeoFeature) : option GeoFeature :=
  match isGeometrySupported (raw_geometry feature) with
  | Some g =>
      if hasName (raw_properties feature) then
        let p := match raw_properties feature with
                 | Some p => p
                 | None => emptyProperties
                 end in
        if isExcluded p then None
        else Some {| geometry := g; properties := p |}
      else None
  | None => None
  end.

Definition validFeatures (features : option (list RawGeoFeature)) : list GeoFeature :=
  keepNonNull (map toGeoFeature (rawFeatures features)).

End ViewBoxVariant.

(* ================================================================== *)
(** ** Specification vocabulary *)

(** The zoom range of the primary variant. *)
Definition minScale : R := 1.
Definition maxScale : R := 20.

Definition scaleInRange (t : Transform) : Prop :=
  minScale <= scale t <= maxScale.

(** Zoom about the anchor [(ax, ay)]: the translation formula of the
    specification, and the content point under the anchor staying put when
    the clamp left the product [scale t * factor] as it was. *)
Definition anchoredZoom (ax ay factor : R) (t t' : Transform) : Prop :=
  tr_x t' = ax - (ax - tr_x t) * (scale t' / scale t) /\
  tr_y t' = ay - (ay - tr_y t) * (scale t' / scale t) /\
  (scale t' = scale t * factor ->
   toContent (tr_x t') (scale t') ax = toContent (tr_x t) (scale t) ax /\
   toContent (tr_y t') (scale t') ay = toContent (tr_y t) (scale t) ay).

(** [b] is the axis-aligned bounding box of a point set: every bound is
    attained and bounds every point. *)
Definition isBoundingBox (points : list Position) (b : LatLonBox) : Prop :=
  (exists p, In p points /\ snd p = minLat b) /\
  (exists p, In p points /\ snd p = maxLat b) /\
  (exists p, In p points /\ fst p = minLon b) /\
  (exists p, In p points /\ fst p = maxLon b) /\
  (forall p, In p points ->
     minLat b <= snd p <= maxLat b /\ minLon b <= fst p <= maxLon b).






(** The two texts of a fallback hint, given the name and the four labels. *)
Definition hintOfLabels (regionName latLabel lonLabel sizeLabel shapeLabel : string)
  : Hint :=
  {| summary :=
       (regionName ++ " / " ++ latLabel ++ "・" ++ lonLabel ++ " / " ++ sizeLabel)%string;
     main_hint :=
       (regionName ++ "は" ++ latLabel ++ "・" ++ lonLabel ++ "に位置し、"
          ++ shapeLabel ++ "で、" ++ sizeLabel ++ "な国です。")%string |}.

(** [term] occurs in [value]. *)
Definition occursIn (term value : string) : Prop :=
  exists before after, value = (before ++ term ++ after)%string.

(** Events that leave the current round running: anything but the start
    of a new question. *)
Definition keepsRound (ev : Event) : bool :=
  match ev with
  | StartNewQuestion _ => false
  | _ => true
  end.

(** What a selection may change: feedback, selected identifier, score. *)
Definition roundOutcome (s : AppState) : option Feedback * option string * Z :=
  (feedback s, selectedId s, score s).

(** A raw feature the loader must drop: geometry missing, geometry of
    another kind, or neither [ADMIN] nor [name] filled in. *)
Definition unusable (raw : RawGeoFeature) : Prop :=
  raw_geometry raw = None \/
  (exists kind, raw_geometry raw = Some (RawOther kind)) \/
  hasName (raw_properties raw) = false.

(** The moves of one drag, delivered in order. *)
Definition dragMoves (mapRef : option MapDiv) (moves : list PointerEvent)
    (s : AppState) : AppState :=
  fold_left (fun st m => handlePointerMove mapRef m st) moves s.

(** What the click guards read besides the pointer set. *)
Definition roundView (s : AppState) : option GeoFeature * option Feedback * bool :=
  (currentCountry s, feedback s, loading s).

(** A drag with the single pointer [id] that started at [st], begun in
    state [s0]: one pointer held, the centroid known, and neither the
    suppression flag nor the round touched so far. *)
Definition singleDrag (id : Z) (st : Point) (m : bool) (s0 s : AppState) : Prop :=
  (exists pos, pointers s = [(id, pos)]) /\
  (exists c, lastCenter s = Some c) /\
  dragState s = {| start := Some st; moved := m |} /\
  suppressClick s = suppressClick s0 /\
  roundView s = roundView s0.

(** The move [m] is more than 6 pixels away from the drag start. *)
Definition beyondThreshold (st : Point) (m : PointerEvent) : Prop :=
  hypot (clientX m - pt_x st) (clientY m - pt_y st) > 6.

(** The invariant the three pointer handlers keep: distinct pointer ids;
    no pointer held exactly when [lastCenter] is [null] and exactly when
    the drag has no start; and with one pointer held, [lastCenter] is where
    that pointer is. *)
Definition pointersTracked (s : AppState) : Prop :=
  NoDup (map fst (pointers s)) /\
  (pointers s = [] <-> lastCenter s = None) /\
  (pointers s = [] <-> start (dragState s) = None) /\
  (forall id pos, pointers s = [(id, pos)] -> lastCenter s = Some pos).

(** Where the pointer of a drag is after its moves. *)
Definition lastEvent (down : PointerEvent) (moves : list PointerEvent) : PointerEvent :=
  List.last moves down.

(** Where the untransformed layer shows an SVG coordinate: the 800 by 400
    drawing is scaled by [baseScale] and centred in the container, which is
    the [offsetX + centerX * baseScale] of the fit computation. *)
Definition svgToCss (viewSize containerSize baseScale content : R) : R :=
  (containerSize - viewSize * baseScale) / 2 + content * baseScale.

(** The projected bounds and the latitude/longitude box of the same points
    are corner to corner, north up. *)
Definition cornersMatch (b : Bounds) (box : LatLonBox) : Prop :=
  (minX b, minY b) = project (minLon box, maxLat box) /\
  (maxX b, maxY b) = project (maxLon box, minLat box).

(** How many questions a sequence of events starts. *)
Fixpoint roundsStarted (evs : list Event) : Z :=
  match evs with
  | [] => 0
  | StartNewQuestion _ :: rest => 1 + roundsStarted rest
  | _ :: rest => roundsStarted rest
  end.

(** Feedback and selection go together, and the verdict is the comparison
    of the selected identifier with the target's. *)
Definition verdictCoherent (s : AppState) : Prop :=
  match feedback s with
  | None => selectedId s = None
  | Some fb =>
      exists country id,
        currentCountry s = Some country /\
        selectedId s = Some id /\
        isCorrect fb = String.eqb id (getCountryId (properties country))
  end.

(** The loaded regions and the target all have [ADMIN] or [name] filled
    in. *)
Definition regionsNamed (s : AppState) : Prop :=
  (forall l f, geoData s = Some l -> In f l -> hasName (Some (properties f)) = true) /\
  (forall f, currentCountry s = Some f -> hasName (Some (properties f)) = true).

(** Nobody is signed in during the events. *)
Definition signedOut (ev : Event) : bool :=
  match ev with
  | Authenticated (Some _) => false
  | _ => true
  end.

(** The quiz side of the state: everything but the viewport and its
    pointer bookkeeping. *)
Definition quizPart (s : AppState) :=
  (user s, geoData s, currentCountry s, hint s, loading s, feedback s,
   score s, selectedId s, hintRequests s, historyWrites s).

(** Events of the viewport: pointers, wheel, reset and fit. *)
Definition viewportEvent (ev : Event) : bool :=
  match ev with
  | PointerDown _ | PointerMove _ _ | PointerUp _ | PointerCancel _
  | Wheel _ _ | ResetClicked | FitFrame _ => true
  | _ => false
  end.

(** The score after [n] questions were started: a non-negative multiple of
    10, at most [10 * n], and an open question has its 10 points still to
    give. *)
Definition scoreWithin (s : AppState) (n : Z) : Prop :=
  (0 <= score s)%Z /\ (exists k, score s = 10 * k)%Z /\
  (score s <= 10 * n)%Z /\
  (feedback s = None -> currentCountry s <> None -> (score s + 10 <= 10 * n)%Z).

(** The points of a region, read off its rings: a position on a ring of
    the polygon, or on a ring of one of the polygons of the
    multi-polygon. *)
Inductive regionPoint : Geometry -> Position -> Prop :=
| point_of_polygon : forall rings ring p,
    In ring rings -> In p ring -> regionPoint (Polygon rings) p
| point_of_multi : forall polygons polygon ring p,
    In polygon polygons -> In ring polygon -> In p ring ->
    regionPoint (MultiPolygon polygons) p.

(** [b] is the bounding box of the region in latitude and longitude: every
    bound is the coordinate of a point of the region and bounds the
    coordinates of all its points. *)
Definition regionBox (g : Geometry) (b : LatLonBox) : Prop :=
  (exists p, regionPoint g p /\ snd p = minLat b) /\
  (exists p, regionPoint g p /\ snd p = maxLat b) /\
  (exists p, regionPoint g p /\ fst p = minLon b) /\
  (exists p, regionPoint g p /\ fst p = maxLon b) /\
  (forall p, regionPoint g p ->
     minLat b <= snd p <= maxLat b /\ minLon b <= fst p <= maxLon b).

(** [b] frames the projected region: every bound is a coordinate of the
    projection of a point of the region and bounds the projections of all
    its points. *)
Definition regionFrame (g : Geometry) (b : Bounds) : Prop :=
  (exists p, regionPoint g p /\ fst (project p) = minX b) /\
  (exists p, regionPoint g p /\ fst (project p) = maxX b) /\
  (exists p, regionPoint g p /\ snd (project p) = minY b) /\
  (exists p, regionPoint g p /\ snd (project p) = maxY b) /\
  (forall p, regionPoint g p ->
     minX b <= fst (project p) <= maxX b /\ minY b <= snd (project p) <= maxY b).

(** What the browser draws in the viewBox variant.  The [svg] element
    fills the map element and has no [preserveAspectRatio] attribute, so
    its [viewBox] is scaled uniformly by the smaller of the two ratios and
    centred.  [shownX] and [shownY] are the SVG coordinates drawn at the
    viewport-local position [(cx, cy)] of a [rectWidth] by [rectHeight]
    element under the transform [t]. *)
Definition shownX (t : Transform) (rectWidth rectHeight cx : R) : R :=
  let '(x, y, w, h) := ViewBoxVariant.viewBox t in
  let k := Rmin (rectWidth / w) (rectHeight / h) in
  x + (cx - (rectWidth - w * k) / 2) / k.

Definition shownY (t : Transform) (rectWidth rectHeight cy : R) : R :=
  let '(x, y, w, h) := ViewBoxVariant.viewBox t in
  let k := Rmin (rectWidth / w) (rectHeight / h) in
  y + (cy - (rectHeight - h * k) / 2) / k.

(* ================================================================== *)
(** ** Scenarios *)

(** A host without [Intl.DisplayNames]; upper-casing is only ever applied
    to codes that are upper case already. *)
Definition plainHost : Host :=
  {| toUpperCase := fun code => code;
     Intl_DisplayNames := None;
     apiKey := "test-key" |}.

(** The map element at the top left corner of an 800 by 400 window, with
    nothing rendered inside. *)
Definition plainDiv : MapDiv :=
  {| rect_left := 0; rect_top := 0; clientWidth := 800; clientHeight := 400;
     svg := None |}.

Definition pointerAt (id : Z) (x y : R) : PointerEvent :=
  {| pointerId := id; clientX := x; clientY := y |}.

(** Two fingers down, at [(0, 0)] and at [(3, 4)]. *)
Definition twoFingers : AppState :=
  handlePointerDown (pointerAt 2 3 4) (handlePointerDown (pointerAt 1 0 0) initialState).

(** The feature of the end-to-end test fixture: a square named Japan. *)
Definition japanProperties : GeoProperties :=
  {| ADMIN := Some "Japan"%string; name := None; ISO_A3 := Some "JPN"%string;
     ISO_A2 := None; ISO3166_1_Alpha_2 := None; ISO3166_1_Alpha_3 := None |}.

Definition japanGeometry : Geometry :=
  Polygon [[(-120, 60); (120, 60); (120, -20); (-120, -20); (-120, 60)]].

Definition japanRaw : RawGeoFeature :=
  {| raw_geometry := Some (RawKnown japanGeometry);
     raw_properties := Some japanProperties |}.

Definition japan : GeoFeature :=
  {| geometry := japanGeometry; properties := japanProperties |}.

(** Two parsed responses of the hint service: one that mentions a
    latitude, and the one of the end-to-end test. *)
Definition leakyHint : Hint :=
  {| main_hint := "日本は北緯35°付近に位置する島国です。"; summary := "東アジアの島国" |}.

Definition testHint : Hint :=
  {| main_hint := "テスト用のヒントです。"; summary := "テストヒント" |}.

(** The fixture loaded, a round started on it and the hint of the
    end-to-end test delivered. *)
Definition roundStarted : AppState :=
  run plainHost initialState
    [GeoLoaded (Some [japanRaw]); StartNewQuestion 0; HintSettled japan (Parsed testHint)].

(** The same round after the player clicked the square. *)
Definition roundAnswered : AppState :=
  handleCountryClick plainHost "JPN" "日本" "2026-01-01T00:00:00.000Z" roundStarted.

(** A fetched collection without any usable feature. *)
Definition emptyLoaded : AppState :=
  step plainHost initialState (GeoLoaded (Some [])).

(** A named raw feature whose polygon has no ring, and what the loader makes
    of it. *)
Definition nowhereProperties : GeoProperties :=
  {| ADMIN := Some "Nowhere"%string; name := None; ISO_A3 := None;
     ISO_A2 := None; ISO3166_1_Alpha_2 := None; ISO3166_1_Alpha_3 := None |}.

Definition nowhereRaw : RawGeoFeature :=
  {| raw_geometry := Some (RawKnown (Polygon []));
     raw_properties := Some nowhereProperties |}.

Definition nowhere : GeoFeature :=
  {| geometry := Polygon []; properties := nowhereProperties |}.

(** A drag of ten pixels that starts on the sea, so that no region click
    follows it; then a tap without any movement; then the click of that tap
    on the target region. *)
Definition dragOnSea : list Event :=
  [PointerDown (pointerAt 1 100 100);
   PointerMove (Some plainDiv) (pointerAt 1 110 100);
   PointerUp (pointerAt 1 110 100)].

Definition tap : list Event :=
  [PointerDown (pointerAt 1 200 150); PointerUp (pointerAt 1 200 150)].

Definition clickJapan : Event :=
  CountryClick "JPN" "日本" "2026-01-01T00:00:00.000Z".

(** The round of [roundStarted] once [dragOnSea] is over: the map panned by
    ten pixels, no pointer held, the suppression flag up. *)
Definition afterDrag : AppState :=
  setSuppressClick true
    (setDragState {| start := None; moved := false |}
       (setLastCenter None
          (setPointers []
             (setTransform
                {| tr_x := 0 + (110 - 100); tr_y := 0 + (100 - 100); scale := 1 |}
                roundStarted)))).

(** A third finger lands at [(30, 40)], then the first finger lifts. *)
Definition threeFingers : AppState :=
  handlePointerDown (pointerAt 3 30 40) twoFingers.

Definition afterRelease : AppState :=
  handlePointerUp (pointerAt 1 0 0) threeFingers.

(* ================================================================== *)
(** ** Evaluating scenarios *)

(** Call-by-value evaluation of the handlers that leaves real arithmetic
    and the decisions on reals as they are. *)
Ltac evaluate :=
  cbv -[Rplus Rminus Rmult Rdiv Ropp Rinv IZR sqrt exp hypot Rmax Rmin Rabs
        Rgt_dec Rlt_dec Rge_dec Rle_dec Req_dec_T Rlt Rle Rgt Rge].

(** Resolves [Rmin]/[Rmax] of operands that [lra] can order. *)
Ltac settle_minmax :=
  repeat match goal with
         | |- context [Rmin ?a ?b] =>
             first [rewrite (Rmin_left a b) by lra | rewrite (Rmin_right a b) by lra]
         | |- context [Rmax ?a ?b] =>
             first [rewrite (Rmax_left a b) by lra | rewrite (Rmax_right a b) by lra]
         end.

Lemma run_app (host : Host) (s : AppState) (evs1 evs2 : list Event) :
  run host s (evs1 ++ evs2) = run host (run host s evs1) evs2.
Proof. apply fold_left_app. Qed.

(* ================================================================== *)
(** ** Projector properties *)





(* ================================================================== *)
(** ** The scale clamp *)

Lemma clamp_in_range (v : R) : 1 <= Rmax 1 (Rmin 20 v) <= 20.
Proof.
  split.
  - apply Rmax_l.
  - apply Rmax_lub; [lra | apply Rmin_l].
Qed.

Lemma clamp_id (v : R) : 1 <= v <= 20 -> Rmax 1 (Rmin 20 v) = v.
Proof.
  intros [Hlo Hhi].
  rewrite Rmin_right by exact Hhi.
  apply Rmax_right; exact Hlo.
Qed.

Lemma zoomAbout_scale (cx cy factor : R) (prev : Transform) :
  scaleInRange (zoomAbout cx cy factor prev).
Proof. unfold scaleInRange, minScale, maxScale, zoomAbout; simpl. apply clamp_in_range. Qed.

Lemma fitTransform_scale (vw vh cw ch : R) (b : Bounds) :
  scaleInRange (fitTransform vw vh cw ch b).
Proof. unfold scaleInRange, minScale, maxScale, fitTransform; simpl. apply clamp_in_range. Qed.

Lemma resetView_scale (s : AppState) : scaleInRange (transform (resetView s)).
Proof. unfold scaleInRange, minScale, maxScale; simpl; lra. Qed.

Lemma initial_scale : scaleInRange (transform initialState).
Proof. unfold scaleInRange, minScale, maxScale; simpl; lra. Qed.

(** The handlers either keep the transform's scale or install a clamped
    one. *)
Lemma handlePointerDown_transform (e : PointerEvent) (s : AppState) :
  transform (handlePointerDown e s) = transform s.
Proof.
  unfold handlePointerDown.
  destruct (Nat.eqb _ 2); destruct (Nat.eqb _ 1); reflexivity.
Qed.

Lemma handlePointerUp_transform (e : PointerEvent) (s : AppState) :
  transform (handlePointerUp e s) = transform s.
Proof.
  unfold handlePointerUp.
  destruct (moved _); destruct (Nat.eqb _ 1); destruct (Nat.eqb _ 0); reflexivity.
Qed.

Lemma handlePointerMove_scale (mapRef : option MapDiv) (e : PointerEvent) (s : AppState) :
  scaleInRange (transform s) ->
  scaleInRange (transform (handlePointerMove mapRef e s)).
Proof.
  intros Hs. unfold handlePointerMove.
  destruct (lastCenter s) as [last|]; [|exact Hs].
  destruct (negb _); [exact Hs|].
  destruct (Nat.eqb _ 1); [exact Hs|].
  destruct (Nat.eqb _ 2); [|exact Hs].
  destruct mapRef as [div|]; [|exact Hs].
  cbn. destruct (Rgt_dec _ 0); [|exact Hs].
  cbn. apply zoomAbout_scale.
Qed.

Lemma handleWheel_scale (mapRef : option MapDiv) (e : WheelEvent) (s : AppState) :
  scaleInRange (transform s) ->
  scaleInRange (transform (handleWheel mapRef e s)).
Proof.
  intros Hs. destruct mapRef as [div|]; [|exact Hs].
  apply zoomAbout_scale.
Qed.

Lemma fitToRegion_scale (mapRef : option MapDiv) (s : AppState) :
  scaleInRange (transform s) ->
  scaleInRange (transform (fitToRegion mapRef s)).
Proof.
  intros Hs. unfold fitToRegion.
  destruct (feedback s); [|exact Hs].
  destruct (currentCountry s) as [country|]; [|exact Hs].
  destruct mapRef as [div|]; [|exact Hs].
  destruct (svg div) as [svgEl|]; [|exact Hs].
  destruct (match pathBBox svgEl _ with Some _ => _ | None => _ end) as [b|]; [|exact Hs].
  destruct (Req_dec_T (clientWidth div) 0); [exact Hs|].
  destruct (Req_dec_T (clientHeight div) 0); [exact Hs|].
  apply fitTransform_scale.
Qed.

Lemma generateAIHint_begin_transform host feature s :
  transform (generateAIHint_begin host feature s) = transform s.
Proof.
  unfold generateAIHint_begin.
  destruct feature; [destruct (nonEmpty _)|]; reflexivity.
Qed.

Lemma generateAIHint_settle_transform host feature response s :
  transform (generateAIHint_settle host feature response s) = transform s.
Proof.
  unfold generateAIHint_settle.
  destruct response; try reflexivity.
  destruct (_ || _)%bool; reflexivity.
Qed.

Lemma startNewQuestion_transform host pick s :
  transform (startNewQuestion host pick s) = transform s.
Proof.
  unfold startNewQuestion.
  destruct (geoData s); [|reflexivity].
  rewrite generateAIHint_begin_transform. reflexivity.
Qed.

Lemma handleCountryClick_transform host id name now s :
  transform (handleCountryClick host id name now s) = transform s.
Proof.
  unfold handleCountryClick.
  destruct (currentCountry s); [|reflexivity].
  destruct (_ || _ || _)%bool; [reflexivity|].
  destruct (suppressClick s); [reflexivity|].
  destruct (negb _); [reflexivity|].
  destruct (String.eqb id _); cbn; destruct (user s); reflexivity.
Qed.

Lemma step_scale (host : Host) (s : AppState) (ev : Event) :
  scaleInRange (transform s) -> scaleInRange (transform (step host s ev)).
Proof.
  intros Hs. destruct ev; cbn [step].
  - exact Hs.
  - exact Hs.
  - rewrite handlePointerDown_transform; exact Hs.
  - apply handlePointerMove_scale; exact Hs.
  - rewrite handlePointerUp_transform; exact Hs.
  - rewrite handlePointerUp_transform; exact Hs.
  - apply handleWheel_scale; exact Hs.
  - apply resetView_scale.
  - rewrite startNewQuestion_transform; exact Hs.
  - rewrite generateAIHint_settle_transform; exact Hs.
  - rewrite handleCountryClick_transform; exact Hs.
  - apply fitToRegion_scale; exact Hs.
Qed.

Lemma run_scale (host : Host) (evs : list Event) :
  forall s, scaleInRange (transform s) -> scaleInRange (transform (run host s evs)).
Proof.
  induction evs as [|ev evs IH]; intros s Hs; cbn.
  - exact Hs.
  - apply IH, step_scale, Hs.
Qed.

(** C2: the scale of the viewport transform lies in [[minScale, maxScale]]
    = [[1, 20]]: for the initial transform, the reset transform, the
    transform computed by the zoom updater of the pinch and wheel handlers
    for any factor and any previous transform, the transform computed by
    fit-to-region for any bounds and sizes, and in every state the
    component reaches from its initial state. *)
Theorem scale_always_clamped :
  (minScale = 1 /\ maxScale = 20) /\
  scaleInRange (transform initialState) /\
  (forall s, scaleInRange (transform (resetView s))) /\
  (forall cx cy factor prev, scaleInRange (zoomAbout cx cy factor prev)) /\
  (forall div e s, scaleInRange (transform (handleWheel (Some div) e s))) /\
  (forall viewWidth viewHeight containerWidth containerHeight bounds,
     scaleInRange
       (fitTransform viewWidth viewHeight containerWidth containerHeight bounds)) /\
  (forall host evs, scaleInRange (transform (run host initialState evs))).
Proof.
  split; [split; reflexivity|].
  split; [apply initial_scale|].
  split; [apply resetView_scale|].
  split; [apply zoomAbout_scale|].
  split; [intros; apply zoomAbout_scale|].
  split; [apply fitTransform_scale|].
  intros host evs. apply run_scale, initial_scale.
Qed.

(* ================================================================== *)
(** ** Zoom about the anchor *)

Lemma hypot_eq (a b c : R) : 0 <= c -> a * a + b * b = c * c -> hypot a b = c.
Proof.
  intros Hc Heq. unfold hypot. rewrite Heq. apply sqrt_square, Hc.
Qed.

Lemma hypot_nonneg (a b : R) : 0 <= hypot a b.
Proof. apply sqrt_pos. Qed.

Lemma zoomAbout_anchored (cx cy factor : R) (prev : Transform) :
  anchoredZoom cx cy factor prev (zoomAbout cx cy factor prev).
Proof.
  unfold anchoredZoom.
  split; [reflexivity|]. split; [reflexivity|].
  unfold zoomAbout; cbn [scale tr_x tr_y].
  set (n := Rmax 1 (Rmin 20 (scale prev * factor))).
  intros Hn.
  assert (Hn1 : 1 <= n) by apply clamp_in_range.
  assert (Hp : scale prev <> 0).
  { intros Hz. rewrite Hz in Hn. lra. }
  unfold toContent. split; field; split; lra.
Qed.

(** A move of one of exactly two held pointers, with a positive previous
    distance and the map mounted, installs the zoom updater's result. *)
Lemma handlePointerMove_pinch (div : MapDiv) (e : PointerEvent) (s : AppState)
    (last : Point) :
  lastCenter s = Some last ->
  map_has (pointerId e) (pointers s) = true ->
  let pts := map_set (pointerId e) (mkPoint (clientX e) (clientY e)) (pointers s) in
  map_size pts = 2%nat ->
  lastDist s > 0 ->
  transform (handlePointerMove (Some div) e s) =
  zoomAbout (pt_x (getCenter pts) - rect_left div) (pt_y (getCenter pts) - rect_top div)
    (getDist pts / lastDist s) (transform s).
Proof.
  intros Hlast Hhas pts Hsize Hdist.
  unfold handlePointerMove. rewrite Hlast, Hhas. cbn [negb].
  fold pts. rewrite Hsize. cbn [Nat.eqb].
  cbn. destruct (Rgt_dec (lastDist s) 0) as [_|Hn]; [reflexivity | contradiction].
Qed.

(** C1: a pinch move (two active pointers, positive previous distance) and
    a wheel event both yield
    [newTranslation = anchor - (anchor - oldTranslation) * (newScale / oldScale)]
    with the anchor at the gesture centroid, respectively the cursor, in
    viewport-local coordinates; and when the clamp leaves the scale at the
    product of old scale and factor, the content point under the anchor is
    the same before and after (exactly, in real arithmetic). *)
Theorem zoom_step_anchored :
  (forall (div : MapDiv) (e : PointerEvent) (s : AppState) (last : Point),
     lastCenter s = Some last ->
     map_has (pointerId e) (pointers s) = true ->
     let pts := map_set (pointerId e) (mkPoint (clientX e) (clientY e)) (pointers s) in
     map_size pts = 2%nat ->
     lastDist s > 0 ->
     anchoredZoom
       (pt_x (getCenter pts) - rect_left div) (pt_y (getCenter pts) - rect_top div)
       (getDist pts / lastDist s)
       (transform s) (transform (handlePointerMove (Some div) e s))) /\
  (forall (div : MapDiv) (e : WheelEvent) (s : AppState),
     anchoredZoom
       (wheel_clientX e - rect_left div) (wheel_clientY e - rect_top div)
       (exp (- deltaY e * 0.001))
       (transform s) (transform (handleWheel (Some div) e s))).
Proof.
  split.
  - intros div e s last Hlast Hhas pts Hsize Hdist.
    rewrite (handlePointerMove_pinch div e s last Hlast Hhas Hsize Hdist).
    apply zoomAbout_anchored.
  - intros div e s. apply zoomAbout_anchored.
Qed.

Lemma twoFingers_spread_dist :
  getDist (map_set 2 (mkPoint 6 8) (pointers twoFingers)) = 10.
Proof. cbn. apply hypot_eq; lra. Qed.

Lemma twoFingers_lastDist : lastDist twoFingers = 5.
Proof. cbn. apply hypot_eq; lra. Qed.

(** The second finger moves from [(3, 4)] to [(6, 8)]: the distance doubles,
    the scale goes from 1 to 2 and the content point under the centroid
    [(3, 4)] stays where it was. *)
Lemma zoom_step_anchored_witness :
  let s' := handlePointerMove (Some plainDiv) (pointerAt 2 6 8) twoFingers in
  scale (transform s') = 2 /\
  toContent (tr_x (transform s')) (scale (transform s')) 3 =
    toContent (tr_x (transform twoFingers)) (scale (transform twoFingers)) 3 /\
  toContent (tr_y (transform s')) (scale (transform s')) 4 =
    toContent (tr_y (transform twoFingers)) (scale (transform twoFingers)) 4.
Proof.
  assert (Hd : lastDist twoFingers > 0) by (rewrite twoFingers_lastDist; lra).
  pose proof (proj1 zoom_step_anchored plainDiv (pointerAt 2 6 8) twoFingers
                (mkPoint ((0 + 3) / 2) ((0 + 4) / 2)) eq_refl eq_refl eq_refl Hd) as H.
  cbv zeta in H. cbn [pointerAt pointerId clientX clientY] in H.
  rewrite twoFingers_spread_dist, twoFingers_lastDist in H.
  destruct H as (_ & _ & Hinv).
  assert (Hs : scale (transform (handlePointerMove (Some plainDiv) (pointerAt 2 6 8)
                                   twoFingers)) = 2).
  { rewrite (handlePointerMove_pinch plainDiv (pointerAt 2 6 8) twoFingers
               (mkPoint ((0 + 3) / 2) ((0 + 4) / 2)) eq_refl eq_refl eq_refl Hd).
    cbn [pointerAt pointerId clientX clientY].
    rewrite twoFingers_spread_dist, twoFingers_lastDist.
    cbn. replace (1 * (10 / 5)) with 2 by lra. apply clamp_id; lra. }
  cbv zeta. split; [exact Hs|].
  assert (Hc : scale (transform (handlePointerMove (Some plainDiv) (pointerAt 2 6 8)
                                   twoFingers))
               = scale (transform twoFingers) * (10 / 5)).
  { rewrite Hs. cbn. lra. }
  specialize (Hinv Hc).
  replace 3 with (pt_x (getCenter (map_set 2 (mkPoint 6 8) (pointers twoFingers)))
                  - rect_left plainDiv) at 1 2 by (cbn; lra).
  replace 4 with (pt_y (getCenter (map_set 2 (mkPoint 6 8) (pointers twoFingers)))
                  - rect_top plainDiv) at 1 2 by (cbn; lra).
  exact Hinv.
Defined.

(* ================================================================== *)
(** ** Quiz controller: guarded selections *)

Lemma click_with_feedback (host : Host) (id name now : string) (s : AppState) :
  feedback s <> None -> handleCountryClick host id name now s = s.
Proof.
  intros Hf. unfold handleCountryClick.
  destruct (currentCountry s); [|reflexivity].
  destruct (feedback s); [reflexivity | contradiction].
Qed.

Lemma click_while_loading (host : Host) (id name now : string) (s : AppState) :
  loading s = true -> handleCountryClick host id name now s = s.
Proof.
  intros Hl. unfold handleCountryClick.
  destruct (currentCountry s); [|reflexivity].
  rewrite Hl, orb_true_r. reflexivity.
Qed.

Lemma click_with_pointers (host : Host) (id name now : string) (s : AppState) :
  (1 < map_size (pointers s))%nat -> handleCountryClick host id name now s = s.
Proof.
  intros Hp. unfold handleCountryClick.
  destruct (currentCountry s); [|reflexivity].
  apply Nat.ltb_lt in Hp. rewrite Hp, orb_true_r. reflexivity.
Qed.

Lemma click_without_round (host : Host) (id name now : string) (s : AppState) :
  currentCountry s = None -> handleCountryClick host id name now s = s.
Proof. intros Hc. unfold handleCountryClick. rewrite Hc. reflexivity. Qed.

(** Outside [startNewQuestion] and [handleCountryClick] no handler writes
    feedback, selection or score. *)
Lemma step_keeps_outcome (host : Host) (s : AppState) (ev : Event) :
  keepsRound ev = true -> feedback s <> None ->
  roundOutcome (step host s ev) = roundOutcome s.
Proof.
  intros Hk Hf. destruct ev; cbn [step]; try discriminate Hk.
  - reflexivity.
  - reflexivity.
  - unfold handlePointerDown.
    destruct (Nat.eqb _ 2); destruct (Nat.eqb _ 1); reflexivity.
  - unfold handlePointerMove.
    destruct (lastCenter s); [|reflexivity].
    destruct (negb _); [reflexivity|].
    destruct (Nat.eqb _ 1); [reflexivity|].
    destruct (Nat.eqb _ 2); [|reflexivity].
    destruct mapRef; [|reflexivity].
    cbn. destruct (Rgt_dec _ 0); reflexivity.
  - unfold handlePointerUp.
    destruct (moved _); destruct (Nat.eqb _ 1); destruct (Nat.eqb _ 0); reflexivity.
  - unfold handlePointerUp.
    destruct (moved _); destruct (Nat.eqb _ 1); destruct (Nat.eqb _ 0); reflexivity.
  - unfold handleWheel. destruct mapRef; reflexivity.
  - reflexivity.
  - unfold generateAIHint_settle.
    destruct response; try reflexivity.
    destruct (_ || _)%bool; reflexivity.
  - rewrite click_with_feedback by exact Hf. reflexivity.
  - unfold fitToRegion.
    destruct (feedback s); [|reflexivity].
    destruct (currentCountry s); [|reflexivity].
    destruct mapRef as [div|]; [|reflexivity].
    destruct (svg div) as [svgEl|]; [|reflexivity].
    destruct (match pathBBox svgEl _ with Some _ => _ | None => _ end); [|reflexivity].
    destruct (Req_dec_T _ 0); [reflexivity|].
    destruct (Req_dec_T _ 0); reflexivity.
Qed.

Lemma run_keeps_outcome (host : Host) (evs : list Event) :
  forall s, forallb keepsRound evs = true -> feedback s <> None ->
            roundOutcome (run host s evs) = roundOutcome s.
Proof.
  induction evs as [|ev evs IH]; intros s Hk Hf.
  - reflexivity.
  - cbn [forallb] in Hk. apply andb_true_iff in Hk as [Hev Hrest].
    change (run host s (ev :: evs)) with (run host (step host s ev) evs).
    pose proof (step_keeps_outcome host s ev Hev Hf) as Hstep.
    rewrite IH; [exact Hstep | exact Hrest |].
    unfold roundOutcome in Hstep. congruence.
Qed.

(** C5: a region click changes nothing (the whole state, so feedback,
    selected identifier and score) when feedback is present, or a hint is
    loading, or more than one pointer is active, or there is no current
    target; and once a selection has been accepted, a further selection
    changes nothing, also after any events that do not start a new
    question. *)
Theorem guarded_selection_is_noop :
  forall (host : Host) (id name now : string) (s : AppState),
    (feedback s <> None \/ loading s = true \/
     (1 < map_size (pointers s))%nat \/ currentCountry s = None ->
     handleCountryClick host id name now s = s) /\
    (forall id0 name0 now0 evs,
       feedback (handleCountryClick host id0 name0 now0 s) <> None ->
       forallb keepsRound evs = true ->
       let accepted := handleCountryClick host id0 name0 now0 s in
       let later := run host accepted evs in
       roundOutcome later = roundOutcome accepted /\
       handleCountryClick host id name now later = later).
Proof.
  intros host id name now s. split.
  - intros [Hf | [Hl | [Hp | Hc]]].
    + apply click_with_feedback, Hf.
    + apply click_while_loading, Hl.
    + apply click_with_pointers, Hp.
    + apply click_without_round, Hc.
  - intros id0 name0 now0 evs Hacc Hk accepted later.
    assert (Hout : roundOutcome later = roundOutcome accepted)
      by (apply run_keeps_outcome; assumption).
    split; [exact Hout|].
    apply click_with_feedback.
    unfold roundOutcome in Hout. fold accepted in Hacc. congruence.
Qed.

Lemma roundStarted_ready :
  currentCountry roundStarted = Some japan /\ feedback roundStarted = None /\
  loading roundStarted = false /\ suppressClick roundStarted = false /\
  pointers roundStarted = [] /\ score roundStarted = 0%Z.
Proof. repeat split. Qed.

(** The scenario of the end-to-end test: the click on the target square is
    accepted as correct and awards 10 points. *)
Lemma roundAnswered_correct :
  feedback roundAnswered = Some {| isCorrect := true; message := "正解！" |} /\
  selectedId roundAnswered = Some "JPN"%string /\
  score roundAnswered = 10%Z.
Proof. repeat split. Qed.

Lemma guarded_selection_is_noop_witness :
  handleCountryClick plainHost "FRA" "フランス" "2026-01-01T00:00:05.000Z" roundAnswered
    = roundAnswered /\
  roundOutcome
    (run plainHost roundAnswered
       [ResetClicked; Wheel (Some plainDiv) (mkWheelEvent 10 10 (-100))])
    = roundOutcome roundAnswered.
Proof.
  split.
  - apply (proj1 (guarded_selection_is_noop plainHost "FRA" "フランス"
                    "2026-01-01T00:00:05.000Z" roundAnswered)).
    left. rewrite (proj1 roundAnswered_correct). discriminate.
  - apply (proj2 (guarded_selection_is_noop plainHost "FRA" "フランス"
                    "2026-01-01T00:00:05.000Z" roundStarted)
             "JPN"%string "日本"%string "2026-01-01T00:00:00.000Z"%string
             [ResetClicked; Wheel (Some plainDiv) (mkWheelEvent 10 10 (-100))]).
    + fold roundAnswered. rewrite (proj1 roundAnswered_correct). discriminate.
    + reflexivity.
Defined.

(* ================================================================== *)
(** ** Quiz controller: starting a round *)

Lemma startNewQuestion_absent (host : Host) (pick : nat) (s : AppState) :
  geoData s = None -> startNewQuestion host pick s = s.
Proof. intros Hg. unfold startNewQuestion. rewrite Hg. reflexivity. Qed.

Lemma startNewQuestion_empty (host : Host) (pick : nat) (s : AppState) :
  geoData s = Some [] ->
  startNewQuestion host pick s =
  setHint None
    (setLoading true
       (setIsHintMinimized false
          (setSelectedId None (setFeedback None (setCurrentCountry None s))))).
Proof.
  intros Hg. unfold startNewQuestion. rewrite Hg.
  destruct pick; reflexivity.
Qed.

(** C6: with a loaded collection of zero regions [startNewQuestion] is not
    a no-op.  Only an absent collection is guarded; with an empty one the
    pick is [undefined], the state updates run, [generateAIHint(undefined)]
    sets [loading] and throws before its [try], and [loading] stays set.
    No request is posted. *)
Theorem startNewQuestion_on_empty_collection :
  forall (host : Host) (pick : nat),
    geoData emptyLoaded = Some [] /\
    loading emptyLoaded = false /\
    loading (startNewQuestion host pick emptyLoaded) = true /\
    startNewQuestion host pick emptyLoaded <> emptyLoaded /\
    hintRequests (startNewQuestion host pick emptyLoaded) = [].
Proof.
  intros host pick.
  rewrite (startNewQuestion_empty host pick emptyLoaded eq_refl).
  repeat split.
  intros Heq. apply (f_equal loading) in Heq. discriminate Heq.
Qed.

(* ================================================================== *)
(** ** Hint provider: the coordinate filter *)

Lemma prefix_occurs (p s : string) :
  String.prefix p s = true <-> exists after, s = (p ++ after)%string.
Proof.
  revert s. induction p as [|a p IH]; intros s.
  - split; [intros _; exists s; reflexivity | intros _; destruct s; reflexivity].
  - destruct s as [|b s]; cbn.
    + split; [discriminate | intros [after H]; discriminate H].
    + destruct (ascii_dec a b) as [->|Hab].
      * rewrite IH. split; intros [after H]; exists after; congruence.
      * split; [discriminate | intros [after H]; congruence].
Qed.

Lemma includes_occurs (term value : string) :
  includes term value = true <-> occursIn term value.
Proof.
  unfold occursIn. split.
  - induction value as [|c value IH]; cbn [includes]; intros H.
    + rewrite orb_false_r in H. apply prefix_occurs in H as [after H].
      exists EmptyString, after. exact H.
    + apply orb_true_iff in H as [H|H].
      * apply prefix_occurs in H as [after H].
        exists EmptyString, after. exact H.
      * destruct (IH H) as (before & after & Heq).
        exists (String c before), after. cbn. rewrite Heq. reflexivity.
  - intros (before & after & ->).
    induction before as [|c before IH].
    + cbn [append].
      assert (Hp : String.prefix term (term ++ after) = true)
        by (apply prefix_occurs; exists after; reflexivity).
      destruct (term ++ after)%string; cbn [includes]; rewrite Hp; reflexivity.
    + cbn [append includes]. rewrite IH. apply orb_true_r.
Qed.

Lemma isCoordinateHint_occurs (value : string) :
  isCoordinateHint value = true <->
  exists term, In term coordinateTerms /\ occursIn term value.
Proof.
  unfold isCoordinateHint. rewrite existsb_exists.
  split; intros (term & Hin & H); exists term; split; try exact Hin;
    apply includes_occurs; exact H.
Qed.

Lemma isCoordinateHint_example : isCoordinateHint "北緯35°" = true.
Proof. reflexivity. Qed.

(** C9: a parsed response whose main explanation or summary contains one of
    the coordinate terms (緯度, 経度, 北緯, 南緯, 東経, 西経, °) is rejected and
    the hint becomes the fallback hint of the same region; a response
    containing none of them becomes the hint as it is. *)
Theorem coordinate_hint_replaced :
  forall (host : Host) (feature : GeoFeature) (parsed : Hint) (s : AppState),
    ((exists term, In term coordinateTerms /\
        (occursIn term (main_hint parsed) \/ occursIn term (summary parsed))) ->
     hint (generateAIHint_settle host feature (Parsed parsed) s)
       = Some (buildFallbackHint host feature)) /\
    ((forall term, In term coordinateTerms ->
        ~ occursIn term (main_hint parsed) /\ ~ occursIn term (summary parsed)) ->
     hint (generateAIHint_settle host feature (Parsed parsed) s) = Some parsed).
Proof.
  intros host feature parsed s. unfold generateAIHint_settle. split.
  - intros (term & Hin & Hocc).
    assert (H : (isCoordinateHint (main_hint parsed)
                 || isCoordinateHint (summary parsed))%bool = true).
    { apply orb_true_iff.
      destruct Hocc as [Hm|Hs]; [left|right];
        apply isCoordinateHint_occurs; exists term; split; assumption. }
    rewrite H. reflexivity.
  - intros Hnone.
    assert (H : (isCoordinateHint (main_hint parsed)
                 || isCoordinateHint (summary parsed))%bool = false).
    { apply orb_false_iff. split; apply not_true_is_false; intros Htrue;
        apply isCoordinateHint_occurs in Htrue as (term & Hin & Hocc);
        destruct (Hnone term Hin) as [Hm Hs]; contradiction. }
    rewrite H. reflexivity.
Qed.

Lemma coordinate_hint_replaced_witness :
  hint (generateAIHint_settle plainHost japan (Parsed leakyHint) roundStarted)
    = Some (buildFallbackHint plainHost japan) /\
  hint (generateAIHint_settle plainHost japan (Parsed testHint) roundStarted)
    = Some testHint.
Proof.
  split.
  - apply (proj1 (coordinate_hint_replaced plainHost japan leakyHint roundStarted)).
    exists "北緯"%string. split; [cbn; tauto|].
    left. exists "日本は"%string, "35°付近に位置する島国です。"%string. reflexivity.
  - apply (proj2 (coordinate_hint_replaced plainHost japan testHint roundStarted)).
    intros term Hin.
    split; intros Hocc; apply includes_occurs in Hocc;
      cbn in Hin; repeat (destruct Hin as [<-|Hin]; [discriminate Hocc|]);
      contradiction.
Defined.

(* ================================================================== *)
(** ** Geometry loader *)

Lemma keepNonNull_In (f : GeoFeature) (l : list (option GeoFeature)) :
  In f (keepNonNull l) <-> In (Some f) l.
Proof.
  induction l as [|[g|] l IH]; cbn.
  - tauto.
  - rewrite IH. split; intros [H|H]; auto; left; congruence.
  - rewrite IH. split; [auto | intros [H|H]; [discriminate | exact H]].
Qed.

Lemma toGeoFeature_Some (raw : RawGeoFeature) (f : GeoFeature) :
  toGeoFeature raw = Some f ->
  raw_geometry raw = Some (RawKnown (geometry f)) /\
  raw_properties raw = Some (properties f) /\
  hasName (Some (properties f)) = true.
Proof.
  unfold toGeoFeature, isGeometrySupported.
  destruct (raw_geometry raw) as [[g|kind]|]; try discriminate.
  destruct (raw_properties raw) as [p|] eqn:Hp; cbn [hasName]; [|discriminate].
  destruct (truthy (orElse (ADMIN p) (name p))) eqn:Hn; [|discriminate].
  intros H. injection H as <-. cbn. auto.
Qed.

Lemma toGeoFeature_unusable (raw : RawGeoFeature) :
  unusable raw -> toGeoFeature raw = None.
Proof.
  unfold unusable, toGeoFeature, isGeometrySupported.
  intros [Hg | [[kind Hg] | Hn]].
  - rewrite Hg. reflexivity.
  - rewrite Hg. reflexivity.
  - rewrite Hn. destruct (raw_geometry raw) as [[g|kind]|]; reflexivity.
Qed.

Lemma orDefault_nonEmpty (a : option string) (d : string) :
  nonEmpty d = true -> nonEmpty (orDefault a d) = true.
Proof.
  intros Hd. unfold orDefault.
  destruct a as [v|]; [|exact Hd].
  destruct (nonEmpty v) eqn:Hv; [exact Hv | exact Hd].
Qed.

Lemma getEnglishName_nonEmpty (p : GeoProperties) :
  nonEmpty (getEnglishName p) = true.
Proof. apply orDefault_nonEmpty. reflexivity. Qed.

Lemma getJapaneseName_nonEmpty (host : Host) (p : GeoProperties) :
  nonEmpty (getJapaneseName host p) = true.
Proof.
  unfold getJapaneseName.
  destruct (option_map _ _) as [code|]; [|apply getEnglishName_nonEmpty].
  destruct (Intl_DisplayNames host) as [displayNames|]; [|apply getEnglishName_nonEmpty].
  destruct (_ && _)%bool; [|apply getEnglishName_nonEmpty].
  destruct (displayNames code) as [display|]; [|apply getEnglishName_nonEmpty].
  destruct (nonEmpty display) eqn:Hd; [exact Hd | apply getEnglishName_nonEmpty].
Qed.

Lemma keepNonNull_app (l1 l2 : list (option GeoFeature)) :
  keepNonNull (l1 ++ l2) = keepNonNull l1 ++ keepNonNull l2.
Proof.
  induction l1 as [|[f|] l1 IH]; cbn; [reflexivity | rewrite IH; reflexivity | exact IH].
Qed.

(** The loader lets a named polygon without any point through: nothing in
    [isGeometrySupported] looks at the coordinates. *)
Lemma loader_keeps_pointless_geometry :
  validFeatures (Some [nowhereRaw]) = [nowhere] /\
  extractPoints (geometry nowhere) = [] /\
  getProjectedBounds nowhere = None.
Proof. repeat split. Qed.

(** C7, as the loader has it: every region of the loaded collection comes
    from a raw feature with a geometry of a supported kind (Polygon or
    MultiPolygon, with or without points) and with [ADMIN] or [name] filled
    in, and its display name is not empty; a raw feature with a missing
    geometry, a geometry of another kind, or neither name field contributes
    nothing to the collection. *)
Theorem loaded_regions_supported_and_named :
  forall (host : Host) (features : option (list RawGeoFeature)),
    (forall f, In f (validFeatures features) ->
       (exists raw, In raw (rawFeatures features) /\
                    raw_geometry raw = Some (RawKnown (geometry f)) /\
                    raw_properties raw = Some (properties f)) /\
       hasName (Some (properties f)) = true /\
       nonEmpty (getJapaneseName host (properties f)) = true) /\
    (forall before raw after,
       rawFeatures features = before ++ raw :: after ->
       unusable raw ->
       validFeatures features = validFeatures (Some (before ++ after))).
Proof.
  intros host features. split.
  - intros f Hin. unfold validFeatures in Hin.
    apply keepNonNull_In, in_map_iff in Hin as (raw & Hraw & Hin).
    apply toGeoFeature_Some in Hraw as (Hg & Hp & Hn).
    split; [exists raw; auto|].
    split; [exact Hn | apply getJapaneseName_nonEmpty].
  - intros before raw after Hsplit Hbad.
    unfold validFeatures. rewrite Hsplit.
    cbn [rawFeatures]. rewrite !map_app, !keepNonNull_app. cbn [map keepNonNull].
    rewrite (toGeoFeature_unusable raw Hbad). reflexivity.
Qed.

Lemma loaded_regions_supported_and_named_witness :
  hasName (Some (properties japan)) = true /\
  nonEmpty (getJapaneseName plainHost (properties japan)) = true /\
  validFeatures (Some [mkRaw None (Some japanProperties); japanRaw])
    = validFeatures (Some [japanRaw]).
Proof.
  destruct (loaded_regions_supported_and_named plainHost
              (Some [mkRaw None (Some japanProperties); japanRaw])) as [Hkept Hdropped].
  destruct (Hkept japan) as (_ & Hn & Hd).
  { change (In japan [japan]). left. reflexivity. }
  split; [exact Hn|]. split; [exact Hd|].
  apply (Hdropped [] (mkRaw None (Some japanProperties)) [japanRaw]).
  - reflexivity.
  - left. reflexivity.
Defined.

(* ================================================================== *)
(** ** Hint provider: the fallback hint *)

Lemma Rmin_cases (a b : R) : (Rmin a b = a /\ a <= b) \/ (Rmin a b = b /\ b <= a).
Proof.
  unfold Rmin. destruct (Rle_dec a b); [left | right]; split; lra.
Qed.

Lemma Rmax_cases (a b : R) : (Rmax a b = b /\ a <= b) \/ (Rmax a b = a /\ b <= a).
Proof.
  unfold Rmax. destruct (Rle_dec a b); [left | right]; split; lra.
Qed.

Lemma isBoundingBox_single (p : Position) :
  isBoundingBox [p]
    {| minLat := snd p; maxLat := snd p; minLon := fst p; maxLon := fst p |}.
Proof.
  unfold isBoundingBox; cbn [minLat maxLat minLon maxLon].
  split; [|split; [|split; [|split]]];
    try (exists p; split; [left; reflexivity | reflexivity]).
  intros q [<-|[]]. lra.
Qed.

Lemma attained_app (P : Position -> Prop) (points extra : list Position) :
  (exists q, In q points /\ P q) -> exists q, In q (points ++ extra) /\ P q.
Proof.
  intros (q & Hin & HP). exists q. split; [apply in_or_app; left|]; assumption.
Qed.

Lemma attained_last (P : Position -> Prop) (points : list Position) (p : Position) :
  P p -> exists q, In q (points ++ [p]) /\ P q.
Proof.
  intros HP. exists p. split; [apply in_or_app; right; left; reflexivity | exact HP].
Qed.

(** One loop iteration extends the bounding box by one point. *)
Lemma growBox_bounding (points : list Position) (b : LatLonBox) (p : Position) :
  isBoundingBox points b -> isBoundingBox (points ++ [p]) (growBox b p).
Proof.
  intros (Hminlat & Hmaxlat & Hminlon & Hmaxlon & Hall).
  destruct p as [lon lat]. unfold isBoundingBox, growBox.
  cbn [minLat maxLat minLon maxLon].
  split; [|split; [|split; [|split]]].
  - destruct (Rmin_cases (minLat b) lat) as [[-> _]|[-> _]];
      [apply attained_app, Hminlat | apply attained_last; reflexivity].
  - destruct (Rmax_cases (maxLat b) lat) as [[-> _]|[-> _]];
      [apply attained_last; reflexivity | apply attained_app, Hmaxlat].
  - destruct (Rmin_cases (minLon b) lon) as [[-> _]|[-> _]];
      [apply attained_app, Hminlon | apply attained_last; reflexivity].
  - destruct (Rmax_cases (maxLon b) lon) as [[-> _]|[-> _]];
      [apply attained_last; reflexivity | apply attained_app, Hmaxlon].
  - intros q Hq.
    assert (Hq' : (minLat b <= snd q <= maxLat b /\ minLon b <= fst q <= maxLon b)
                  \/ q = (lon, lat)).
    { apply in_app_or in Hq as [Hin|[<-|[]]]; [left; apply Hall, Hin | right; reflexivity]. }
    destruct (Rmin_cases (minLat b) lat) as [[-> ?]|[-> ?]];
      destruct (Rmax_cases (maxLat b) lat) as [[-> ?]|[-> ?]];
      destruct (Rmin_cases (minLon b) lon) as [[-> ?]|[-> ?]];
      destruct (Rmax_cases (maxLon b) lon) as [[-> ?]|[-> ?]];
      destruct Hq' as [[[? ?] [? ?]]| ->]; cbn [fst snd]; lra.
Qed.

Lemma fold_growBox_bounding (rest : list Position) :
  forall (seen : list Position) (b : LatLonBox),
    isBoundingBox seen b -> isBoundingBox (seen ++ rest) (fold_left growBox rest b).
Proof.
  induction rest as [|p rest IH]; intros seen b Hb; cbn [fold_left].
  - rewrite app_nil_r. exact Hb.
  - replace (seen ++ p :: rest) with ((seen ++ [p]) ++ rest)
      by (rewrite <- app_assoc; reflexivity).
    apply IH, growBox_bounding, Hb.
Qed.

Lemma latLonBox_bounding (first : Position) (rest : list Position) :
  isBoundingBox (first :: rest) (latLonBox first rest).
Proof.
  apply (fold_growBox_bounding rest [first]), isBoundingBox_single.
Qed.





Lemma extractPoints_regionPoint (g : Geometry) (p : Position) :
  In p (extractPoints g) <-> regionPoint g p.
Proof.
  destruct g as [rings|polygons]; cbn [extractPoints].
  - rewrite in_concat. split.
    + intros (ring & Hring & Hp). exact (point_of_polygon rings ring p Hring Hp).
    + intros H. inversion H; subst. exists ring. auto.
  - rewrite in_flat_map. split.
    + intros (polygon & Hpoly & Hp). apply in_concat in Hp as (ring & Hring & Hp).
      exact (point_of_multi polygons polygon ring p Hpoly Hring Hp).
    + intros H. inversion H; subst. exists polygon. split; [assumption|].
      apply in_concat. exists ring. auto.
Qed.

Lemma regionBox_of_points (g : Geometry) (b : LatLonBox) :
  isBoundingBox (extractPoints g) b -> regionBox g b.
Proof.
  intros (Hminlat & Hmaxlat & Hminlon & Hmaxlon & Hall). unfold regionBox.
  assert (Hex : forall P : Position -> Prop,
             (exists p, In p (extractPoints g) /\ P p) ->
             exists p, regionPoint g p /\ P p).
  { intros P (p & Hin & HP). exists p. split; [apply extractPoints_regionPoint|];
      assumption. }
  split; [apply (Hex (fun p => snd p = minLat b)), Hminlat|].
  split; [apply (Hex (fun p => snd p = maxLat b)), Hmaxlat|].
  split; [apply (Hex (fun p => fst p = minLon b)), Hminlon|].
  split; [apply (Hex (fun p => fst p = maxLon b)), Hmaxlon|].
  intros p Hp. apply Hall, extractPoints_regionPoint, Hp.
Qed.


Lemma japan_points (p : Position) :
  regionPoint japanGeometry p ->
  p = (-120, 60) \/ p = (120, 60) \/ p = (120, -20) \/ p = (-120, -20).
Proof.
  intros H. inversion H as [rings ring q Hring Hq|]; subst.
  destruct Hring as [<-|[]].
  destruct Hq as [<-|[<-|[<-|[<-|[<-|[]]]]]]; auto.
Qed.

Lemma japan_point (lon lat : R) :
  In (lon, lat) [(-120, 60); (120, 60); (120, -20); (-120, -20); (-120, 60)] ->
  regionPoint japanGeometry (lon, lat).
Proof.
  intros Hin. unfold japanGeometry.
  eapply point_of_polygon; [left; reflexivity | exact Hin].
Qed.


(** The square of the test fixture lies in the northern and (its centre
    being on the prime meridian) eastern hemisphere, is large, and is one
    piece. *)
Lemma japan_fallback_hint :
  buildFallbackHint plainHost japan
  = hintOfLabels "Japan" "北半球" "東半球" "広い" "ひと続きの陸地を持つ国".
Proof.
  unfold buildFallbackHint.
  cbv [japan geometry japanGeometry extractPoints List.concat app].
  cbv zeta.
  match goal with
  | |- context [latLonBox ?first ?rest] =>
      assert (Hbox : latLonBox first rest
                     = {| minLat := -20; maxLat := 60; minLon := -120; maxLon := 120 |})
  end.
  { unfold latLonBox. cbn [fold_left growBox fst snd minLat maxLat minLon maxLon].
    settle_minmax. reflexivity. }
  rewrite Hbox. cbn [minLat maxLat minLon maxLon].
  unfold latLabelOf, lonLabelOf, sizeLabelOf.
  destruct (Rge_dec ((-20 + 60) / 2) 0); [|lra].
  destruct (Rge_dec ((-120 + 120) / 2) 0); [|lra].
  replace (Rabs ((60 - -20) * (120 - -120))) with 19200
    by (rewrite Rabs_right; lra).
  destruct (Rlt_dec 19200 20); [lra|].
  destruct (Rlt_dec 19200 80); [lra|].
  reflexivity.
Qed.

(* ================================================================== *)
(** ** Drag threshold and click suppression *)

Lemma hypot_gt (a b c : R) : 0 <= c -> c * c < a * a + b * b -> hypot a b > c.
Proof.
  intros Hc Hlt. unfold hypot.
  rewrite <- (sqrt_square c Hc). apply sqrt_lt_1_alt. split; [nra | exact Hlt].
Qed.

(** The single-pointer branch marks the drag as moved exactly when it was
    marked already or the pointer is more than 6 pixels from the start. *)
Lemma trackDrag_moved (e : PointerEvent) (d : DragState) :
  moved (trackDrag e d) = true <->
  moved d = true \/
  exists st, start d = Some st /\ hypot (clientX e - pt_x st) (clientY e - pt_y st) > 6.
Proof.
  unfold trackDrag. destruct (start d) as [st|] eqn:Hst.
  - destruct (moved d) eqn:Hm.
    + rewrite Hm. tauto.
    + destruct (Rgt_dec _ 6) as [Hgt|Hle]; cbn [moved].
      * split; [intros _; right; exists st; auto | reflexivity].
      * rewrite Hm. split; [discriminate|].
        intros [H|(st' & Heq & Hgt)]; [discriminate|].
        injection Heq as <-. contradiction.
  - split; [auto|]. intros [H|(st & Heq & _)]; [exact H | discriminate].
Qed.

(** Releasing a pointer raises the suppression flag after a moved drag and
    never lowers it. *)
Lemma handlePointerUp_suppressClick (e : PointerEvent) (s : AppState) :
  suppressClick (handlePointerUp e s) = (moved (dragState s) || suppressClick s)%bool.
Proof.
  unfold handlePointerUp. cbn [dragState setPointers].
  destruct (moved (dragState s)); destruct (Nat.eqb _ 1); destruct (Nat.eqb _ 0);
    reflexivity.
Qed.

Lemma handlePointerDown_suppressClick (e : PointerEvent) (s : AppState) :
  suppressClick (handlePointerDown e s) = suppressClick s.
Proof.
  unfold handlePointerDown.
  destruct (Nat.eqb _ 2); destruct (Nat.eqb _ 1); reflexivity.
Qed.

(** A click that passes the guards with the flag raised only lowers the
    flag; with the flag lowered it is answered. *)
Lemma click_consumes_suppression (host : Host) (id name now : string) (s : AppState)
    (country : GeoFeature) :
  currentCountry s = Some country -> feedback s = None -> loading s = false ->
  (map_size (pointers s) <= 1)%nat -> suppressClick s = true ->
  handleCountryClick host id name now s = setSuppressClick false s.
Proof.
  intros Hc Hf Hl Hp Hs. unfold handleCountryClick.
  rewrite Hc, Hf, Hl, Hs. cbn [isSome orb].
  apply Nat.ltb_ge in Hp. rewrite Hp. reflexivity.
Qed.

Lemma getCountryId_nonEmpty (p : GeoProperties) : nonEmpty (getCountryId p) = true.
Proof. apply orDefault_nonEmpty. reflexivity. Qed.

Lemma click_answers (host : Host) (id name now : string) (s : AppState)
    (country : GeoFeature) :
  currentCountry s = Some country -> feedback s = None -> loading s = false ->
  (map_size (pointers s) <= 1)%nat -> suppressClick s = false ->
  feedback (handleCountryClick host id name now s) <> None /\
  selectedId (handleCountryClick host id name now s) = Some id.
Proof.
  intros Hc Hf Hl Hp Hs. unfold handleCountryClick.
  rewrite Hc, Hf, Hl, Hs. cbn [isSome orb].
  apply Nat.ltb_ge in Hp. rewrite Hp.
  rewrite getCountryId_nonEmpty. cbn [negb].
  destruct (String.eqb id _); cbn; destruct (user s); cbn; split;
    solve [discriminate | reflexivity].
Qed.

Lemma handlePointerMove_single (mapRef : option MapDiv) (e : PointerEvent)
    (s : AppState) (pos last : Point) :
  pointers s = [(pointerId e, pos)] -> lastCenter s = Some last ->
  handlePointerMove mapRef e s =
  setLastCenter (Some (mkPoint (clientX e) (clientY e)))
    (setTransform
       {| tr_x := tr_x (transform s) + (clientX e - pt_x last);
          tr_y := tr_y (transform s) + (clientY e - pt_y last);
          scale := scale (transform s) |}
       (setDragState (trackDrag e (dragState s))
          (setPointers [(pointerId e, mkPoint (clientX e) (clientY e))] s))).
Proof.
  intros Hp Hl. unfold handlePointerMove. rewrite Hl, Hp.
  cbn [map_has map_set]. rewrite Z.eqb_refl. reflexivity.
Qed.

Lemma singleDrag_down (e : PointerEvent) (s : AppState) :
  pointers s = [] ->
  singleDrag (pointerId e) (mkPoint (clientX e) (clientY e)) false s
    (handlePointerDown e s).
Proof.
  intros Hp. unfold handlePointerDown. rewrite Hp. cbn [map_set map_size length Nat.eqb].
  unfold singleDrag. repeat split; eexists; reflexivity.
Qed.

Lemma singleDrag_move (mapRef : option MapDiv) (e : PointerEvent) (st : Point)
    (m : bool) (s0 s : AppState) :
  singleDrag (pointerId e) st m s0 s ->
  exists m', singleDrag (pointerId e) st m' s0 (handlePointerMove mapRef e s) /\
             (m' = true <-> m = true \/ beyondThreshold st e).
Proof.
  intros ((pos & Hp) & (c & Hc) & Hd & Hs & Hv).
  rewrite (handlePointerMove_single mapRef e s pos c Hp Hc).
  exists (moved (trackDrag e (dragState s))). split.
  - unfold singleDrag. split; [eexists; reflexivity|]. split; [eexists; reflexivity|].
    split; [|split; [exact Hs | exact Hv]].
    cbn [dragState setLastCenter setTransform setDragState].
    unfold trackDrag. rewrite Hd. cbn [start moved].
    destruct m; [reflexivity|]. destruct (Rgt_dec _ 6); reflexivity.
  - rewrite trackDrag_moved, Hd. cbn [start moved]. unfold beyondThreshold.
    split; intros [H|H]; auto.
    + destruct H as (st' & Heq & Hgt). injection Heq as <-. auto.
    + right. exists st. auto.
Qed.

Lemma singleDrag_moves (mapRef : option MapDiv) (id : Z) (st : Point) (s0 : AppState)
    (moves : list PointerEvent) :
  (forall e, In e moves -> pointerId e = id) ->
  forall (m : bool) (s : AppState),
    singleDrag id st m s0 s ->
    exists m', singleDrag id st m' s0 (dragMoves mapRef moves s) /\
               (m' = true <-> m = true \/ exists e, In e moves /\ beyondThreshold st e).
Proof.
  induction moves as [|e moves IH]; intros Hid m s Hs.
  - exists m. split; [exact Hs|]. split; [auto | intros [H|(e & [] & _)]; exact H].
  - assert (He : pointerId e = id) by (apply Hid; left; reflexivity).
    subst id.
    destruct (singleDrag_move mapRef e st m s0 s Hs) as (m1 & Hs1 & Hm1).
    destruct (IH (fun e' H => Hid e' (or_intror H)) m1 _ Hs1) as (m2 & Hs2 & Hm2).
    exists m2. split; [exact Hs2|].
    rewrite Hm2, Hm1. split.
    + intros [[H|H]|(e' & Hin & H)]; auto.
      * right. exists e. split; [left; reflexivity | exact H].
      * right. exists e'. split; [right; exact Hin | exact H].
    + intros [H|(e' & [<-|Hin] & H)]; auto.
      right. exists e'. auto.
Qed.

Lemma singleDrag_up (e : PointerEvent) (st : Point) (m : bool) (s0 s : AppState) :
  singleDrag (pointerId e) st m s0 s ->
  pointers (handlePointerUp e s) = [] /\
  suppressClick (handlePointerUp e s) = (m || suppressClick s0)%bool /\
  roundView (handlePointerUp e s) = roundView s0.
Proof.
  intros ((pos & Hp) & _ & Hd & Hs & Hv).
  rewrite handlePointerUp_suppressClick, Hd, Hs. cbn [moved].
  unfold handlePointerUp. rewrite Hp. cbn [map_delete]. rewrite Z.eqb_refl.
  cbn [map_size length Nat.eqb].
  destruct (moved _); repeat split; exact Hv.
Qed.

(** One whole single-pointer interaction, from a state without pointers:
    the flag ends up raised when some move went beyond the threshold, and
    as it was before otherwise. *)
Lemma single_pointer_interaction (mapRef : option MapDiv) (down up : PointerEvent)
    (moves : list PointerEvent) (s : AppState) :
  pointers s = [] ->
  pointerId up = pointerId down ->
  (forall e, In e moves -> pointerId e = pointerId down) ->
  let st := mkPoint (clientX down) (clientY down) in
  let s' := handlePointerUp up (dragMoves mapRef moves (handlePointerDown down s)) in
  pointers s' = [] /\
  roundView s' = roundView s /\
  ((exists e, In e moves /\ beyondThreshold st e) -> suppressClick s' = true) /\
  ((forall e, In e moves -> ~ beyondThreshold st e) ->
   suppressClick s' = suppressClick s).
Proof.
  intros Hp Hup Hid st s'.
  destruct (singleDrag_moves mapRef (pointerId down) st s moves Hid false
              (handlePointerDown down s) (singleDrag_down down s Hp))
    as (m & Hdrag & Hm).
  rewrite <- Hup in Hdrag.
  destruct (singleDrag_up up st m s _ Hdrag) as (Hptrs & Hflag & Hview).
  fold s' in Hptrs, Hflag, Hview.
  split; [exact Hptrs|]. split; [exact Hview|]. split.
  - intros Hfar. rewrite Hflag.
    replace m with true by (symmetry; apply Hm; right; exact Hfar). reflexivity.
  - intros Hnear. rewrite Hflag.
    destruct m; [|reflexivity].
    destruct (proj1 Hm eq_refl) as [H|(e & Hin & H)]; [discriminate|].
    destruct (Hnear e Hin H).
Qed.

(** After an interaction that never went beyond the threshold, begun with
    the flag down, the click is answered. *)
Lemma quiet_interaction_click_answered (host : Host) (mapRef : option MapDiv)
    (down up : PointerEvent) (moves : list PointerEvent) (id name now : string)
    (s : AppState) (country : GeoFeature) :
  pointers s = [] -> suppressClick s = false ->
  currentCountry s = Some country -> feedback s = None -> loading s = false ->
  pointerId up = pointerId down ->
  (forall e, In e moves -> pointerId e = pointerId down) ->
  (forall e, In e moves ->
     ~ beyondThreshold (mkPoint (clientX down) (clientY down)) e) ->
  let s' := handlePointerUp up (dragMoves mapRef moves (handlePointerDown down s)) in
  feedback (handleCountryClick host id name now s') <> None.
Proof.
  intros Hp Hs Hc Hf Hl Hup Hid Hnear s'.
  destruct (single_pointer_interaction mapRef down up moves s Hp Hup Hid)
    as (Hp' & Hv & _ & Hflag).
  fold s' in Hp', Hv, Hflag.
  unfold roundView in Hv. rewrite Hc, Hf, Hl in Hv. injection Hv as Hc' Hf' Hl'.
  apply (click_answers host id name now s' country Hc' Hf' Hl').
  - rewrite Hp'. cbn. lia.
  - rewrite (Hflag Hnear). exact Hs.
Qed.

(** After an interaction that went beyond the threshold, the first click
    only lowers the flag and the second one is answered. *)
Lemma moved_interaction_one_click_swallowed (host : Host) (mapRef : option MapDiv)
    (down up : PointerEvent) (moves : list PointerEvent)
    (id name now id2 name2 now2 : string) (s : AppState) (country : GeoFeature) :
  pointers s = [] ->
  currentCountry s = Some country -> feedback s = None -> loading s = false ->
  pointerId up = pointerId down ->
  (forall e, In e moves -> pointerId e = pointerId down) ->
  (exists e, In e moves /\ beyondThreshold (mkPoint (clientX down) (clientY down)) e) ->
  let s' := handlePointerUp up (dragMoves mapRef moves (handlePointerDown down s)) in
  let first := handleCountryClick host id name now s' in
  feedback first = None /\ suppressClick first = false /\
  feedback (handleCountryClick host id2 name2 now2 first) <> None.
Proof.
  intros Hp Hc Hf Hl Hup Hid Hfar s' first.
  destruct (single_pointer_interaction mapRef down up moves s Hp Hup Hid)
    as (Hp' & Hv & Hflag & _).
  fold s' in Hp', Hv, Hflag.
  unfold roundView in Hv. rewrite Hc, Hf, Hl in Hv. injection Hv as Hc' Hf' Hl'.
  assert (Hsize : (map_size (pointers s') <= 1)%nat) by (rewrite Hp'; cbn; lia).
  assert (Hfirst : first = setSuppressClick false s')
    by (apply (click_consumes_suppression host id name now s' country); auto).
  rewrite Hfirst.
  split; [exact Hf'|]. split; [reflexivity|].
  apply (click_answers host id2 name2 now2 (setSuppressClick false s') country);
    auto.
Qed.

Lemma run_dragOnSea : run plainHost roundStarted dragOnSea = afterDrag.
Proof.
  assert (Hfar : hypot (110 - 100) (100 - 100) > 6) by (apply hypot_gt; lra).
  evaluate.
  destruct (Rgt_dec (hypot (110 - 100) (100 - 100)) 6); [reflexivity | contradiction].
Qed.

(** C4, evaluated: the suppression flag outlives the drag that raised it.
    A tap in a fresh round is answered; after a ten-pixel drag that was
    followed by no region click, the flag is still up, the same motionless
    tap does not lower it, and its click is swallowed; only the click after
    that one is answered. *)
Theorem stale_suppression_swallows_tap :
  feedback (run plainHost roundStarted (tap ++ [clickJapan])) <> None /\
  suppressClick (run plainHost roundStarted dragOnSea) = true /\
  suppressClick (run plainHost roundStarted (dragOnSea ++ tap)) = true /\
  feedback (run plainHost roundStarted (dragOnSea ++ tap ++ [clickJapan])) = None /\
  feedback (run plainHost roundStarted (dragOnSea ++ tap ++ [clickJapan; clickJapan]))
    <> None.
Proof.
  rewrite !run_app, run_dragOnSea.
  split; [evaluate; discriminate|].
  split; [reflexivity|].
  split; [evaluate; reflexivity|].
  split; [evaluate; reflexivity|].
  evaluate; discriminate.
Qed.

(* ================================================================== *)
(** ** Releasing one of several pointers *)

Lemma handlePointerUp_lastDist (e : PointerEvent) (s : AppState) :
  lastDist (handlePointerUp e s) = lastDist s.
Proof.
  unfold handlePointerUp.
  destruct (moved _); destruct (Nat.eqb _ 1); destruct (Nat.eqb _ 0); reflexivity.
Qed.

Lemma handlePointerUp_pointers (e : PointerEvent) (s : AppState) :
  pointers (handlePointerUp e s) = map_delete (pointerId e) (pointers s).
Proof.
  unfold handlePointerUp.
  destruct (moved _); destruct (Nat.eqb _ 1); destruct (Nat.eqb _ 0); reflexivity.
Qed.

(** With one pointer left, the centroid and the drag start are taken from
    it. *)
Lemma handlePointerUp_one_left (e : PointerEvent) (s : AppState) :
  map_size (map_delete (pointerId e) (pointers s)) = 1%nat ->
  lastCenter (handlePointerUp e s)
    = Some (getCenter (map_delete (pointerId e) (pointers s))) /\
  dragState (handlePointerUp e s)
    = {| start := Some (getCenter (map_delete (pointerId e) (pointers s)));
         moved := false |}.
Proof.
  intros Hsize. unfold handlePointerUp. rewrite Hsize. cbn [Nat.eqb].
  destruct (moved _); split; reflexivity.
Qed.

(** With two or more left, neither the centroid nor the baseline is
    touched. *)
Lemma handlePointerUp_several_left (e : PointerEvent) (s : AppState) :
  (2 <= map_size (map_delete (pointerId e) (pointers s)))%nat ->
  lastCenter (handlePointerUp e s) = lastCenter s /\
  lastDist (handlePointerUp e s) = lastDist s.
Proof.
  intros Hsize. unfold handlePointerUp.
  destruct (map_size _) as [|[|n]]; [lia | lia |].
  cbn [Nat.eqb]. destruct (moved _); split; reflexivity.
Qed.

(** C10, evaluated: fingers at [(0, 0)], [(3, 4)] and [(30, 40)], the first
    one lifts.  The two held pointers are 45 apart with centroid
    [(16.5, 22)], but the stored baseline is still 5 and the stored
    centroid still [(1.5, 2)], those of the first two fingers.  The next
    move, of the third finger to [(33, 44)], divides the new distance 50
    by 5 and takes the scale from 1 to 10. *)
Theorem stale_baseline_after_release :
  pointers afterRelease = [(2%Z, mkPoint 3 4); (3%Z, mkPoint 30 40)] /\
  getDist (pointers afterRelease) = 45 /\
  lastDist afterRelease = 5 /\
  getCenter (pointers afterRelease) = mkPoint ((3 + 30) / 2) ((4 + 40) / 2) /\
  lastCenter afterRelease = Some (mkPoint ((0 + 3) / 2) ((0 + 4) / 2)) /\
  scale (transform afterRelease) = 1 /\
  scale (transform (handlePointerMove (Some plainDiv) (pointerAt 3 33 44) afterRelease))
    = 10.
Proof.
  assert (Hstale : lastDist afterRelease = 5) by (cbn; apply hypot_eq; lra).
  assert (Hnew : getDist (map_set 3 (mkPoint 33 44) (pointers afterRelease)) = 50)
    by (cbn; apply hypot_eq; lra).
  split; [reflexivity|].
  split; [cbn; apply hypot_eq; lra|].
  split; [exact Hstale|].
  split; [reflexivity|].
  split; [reflexivity|].
  split; [reflexivity|].
  rewrite (handlePointerMove_pinch plainDiv (pointerAt 3 33 44) afterRelease
             (mkPoint ((0 + 3) / 2) ((0 + 4) / 2)) eq_refl eq_refl eq_refl).
  - cbn [pointerAt pointerId clientX clientY]. rewrite Hnew, Hstale.
    cbn. replace (1 * (50 / 5)) with 10 by lra. apply clamp_id; lra.
  - rewrite Hstale. lra.
Qed.

(* ================================================================== *)
(** ** The pointer set *)

Lemma map_set_keys (id : Z) (v : Point) (m : PointerMap) :
  map fst (map_set id v m) =
  if map_has id m then map fst m else map fst m ++ [id].
Proof.
  induction m as [|[k w] m IH]; cbn [map_set map_has map fst app]; [reflexivity|].
  destruct (Z.eqb k id) eqn:Hk; cbn [orb map fst]; [reflexivity|].
  rewrite IH. destruct (map_has id m); reflexivity.
Qed.

Lemma map_has_In (id : Z) (m : PointerMap) :
  map_has id m = true <-> In id (map fst m).
Proof.
  induction m as [|[k w] m IH]; cbn [map_has map fst In]; [split; [discriminate | tauto]|].
  rewrite orb_true_iff, IH, Z.eqb_eq. tauto.
Qed.

Lemma map_set_NoDup (id : Z) (v : Point) (m : PointerMap) :
  NoDup (map fst m) -> NoDup (map fst (map_set id v m)).
Proof.
  intros Hnd. rewrite map_set_keys.
  destruct (map_has id m) eqn:Hhas; [exact Hnd|].
  apply NoDup_app; [exact Hnd | repeat constructor; intros [] |].
  intros x Hx [<-|[]]. apply map_has_In in Hx. congruence.
Qed.

Lemma map_delete_incl (id : Z) (m : PointerMap) (k : Z) :
  In k (map fst (map_delete id m)) -> In k (map fst m).
Proof.
  induction m as [|[k' w] m IH]; cbn [map_delete map fst In]; [tauto|].
  destruct (Z.eqb k' id); cbn [map fst In]; tauto.
Qed.

Lemma map_delete_NoDup (id : Z) (m : PointerMap) :
  NoDup (map fst m) -> NoDup (map fst (map_delete id m)).
Proof.
  induction m as [|[k w] m IH]; cbn [map_delete map fst]; intros Hnd; [exact Hnd|].
  inversion Hnd as [|? ? Hnotin Hrest]; subst.
  destruct (Z.eqb k id); [exact Hrest|].
  cbn [map fst]. constructor; [|apply IH, Hrest].
  intros Hin. apply Hnotin, (map_delete_incl id m k Hin).
Qed.

Lemma map_set_nonempty (id : Z) (v : Point) (m : PointerMap) : map_set id v m <> [].
Proof.
  destruct m as [|[k w] m]; cbn [map_set]; [discriminate|].
  destruct (Z.eqb k id); discriminate.
Qed.

Lemma map_set_size (id : Z) (v : Point) (m : PointerMap) :
  map_size (map_set id v m) = if map_has id m then map_size m else S (map_size m).
Proof.
  unfold map_size. rewrite <- !(length_map fst), map_set_keys.
  destruct (map_has id m); [reflexivity|].
  rewrite length_app. cbn. lia.
Qed.

Lemma getCenter_single (id : Z) (pos : Point) : getCenter [(id, pos)] = pos.
Proof. destruct pos; reflexivity. Qed.

Lemma size_one (m : PointerMap) :
  map_size m = 1%nat -> exists id pos, m = [(id, pos)].
Proof.
  destruct m as [|[id pos] [|? ?]]; cbn; try discriminate.
  intros _. exists id, pos. reflexivity.
Qed.

Lemma size_zero (m : PointerMap) : map_size m = 0%nat -> m = [].
Proof. destruct m; [reflexivity | discriminate]. Qed.

Lemma pointersTracked_down (e : PointerEvent) (s : AppState) :
  pointersTracked s -> pointersTracked (handlePointerDown e s).
Proof.
  intros (Hnd & Hlc & Hst & Hone).
  set (pts := map_set (pointerId e) (mkPoint (clientX e) (clientY e)) (pointers s)).
  assert (Hne : pts <> []) by apply map_set_nonempty.
  assert (Hp : pointers (handlePointerDown e s) = pts).
  { unfold handlePointerDown. fold pts.
    destruct (Nat.eqb _ 2); destruct (Nat.eqb _ 1); reflexivity. }
  assert (Hc : lastCenter (handlePointerDown e s) = Some (getCenter pts)).
  { unfold handlePointerDown. fold pts.
    destruct (Nat.eqb _ 2); destruct (Nat.eqb _ 1); reflexivity. }
  assert (Hs : start (dragState (handlePointerDown e s)) <> None).
  { unfold handlePointerDown. fold pts.
    destruct (Nat.eqb (map_size pts) 1) eqn:H1.
    - destruct (Nat.eqb _ 2); cbn; discriminate.
    - assert (Hold : pointers s <> []).
      { intros Hnil. unfold pts in H1. rewrite Hnil in H1. discriminate H1. }
      destruct (Nat.eqb _ 2); cbn; intros Hn; apply Hold, Hst, Hn. }
  unfold pointersTracked. rewrite Hp, Hc.
  split; [apply map_set_NoDup, Hnd|].
  split; [split; [contradiction | discriminate]|].
  split; [split; [contradiction | intros H; contradiction]|].
  intros id pos Heq. rewrite Heq, getCenter_single. reflexivity.
Qed.

Lemma pointersTracked_up (e : PointerEvent) (s : AppState) :
  pointersTracked s -> pointersTracked (handlePointerUp e s).
Proof.
  intros (Hnd & Hlc & Hst & Hone).
  set (pts := map_delete (pointerId e) (pointers s)).
  assert (Hp : pointers (handlePointerUp e s) = pts).
  { unfold handlePointerUp. fold pts.
    destruct (moved _); destruct (Nat.eqb _ 1); destruct (Nat.eqb _ 0); reflexivity. }
  assert (Hold : pts <> [] -> pointers s <> []).
  { intros Hne Hnil. apply Hne. unfold pts. rewrite Hnil. reflexivity. }
  unfold pointersTracked. rewrite Hp.
  split; [apply map_delete_NoDup, Hnd|].
  unfold handlePointerUp. fold pts.
  destruct (map_size pts) as [|[|n]] eqn:Hsize; cbn [Nat.eqb].
  - apply size_zero in Hsize. rewrite Hsize.
    destruct (moved _); cbn; repeat split; try reflexivity; discriminate.
  - destruct (size_one pts Hsize) as (id & pos & Heq). rewrite Heq.
    destruct (moved _); cbn [lastCenter dragState start setDragState setLastCenter
                              setSuppressClick setPointers];
      (split; [split; discriminate|]);
      (split; [split; discriminate|]);
      intros id' pos' Hq; injection Hq as <- <-; rewrite getCenter_single; reflexivity.
  - assert (Hne : pts <> []) by (intros Hnil; rewrite Hnil in Hsize; discriminate).
    assert (Hlc' : lastCenter s <> None) by (intros H; apply (Hold Hne), Hlc, H).
    assert (Hst' : start (dragState s) <> None) by (intros H; apply (Hold Hne), Hst, H).
    destruct (moved (dragState (setPointers pts s)));
      cbn [lastCenter dragState start setSuppressClick setPointers];
      (split; [split; [contradiction | intros H; contradiction]|]);
      (split; [split; [contradiction | intros H; contradiction]|]);
      intros id pos Hq; rewrite Hq in Hsize; discriminate Hsize.
Qed.

Lemma pointersTracked_move (mapRef : option MapDiv) (e : PointerEvent) (s : AppState) :
  pointersTracked s -> pointersTracked (handlePointerMove mapRef e s).
Proof.
  intros Hinv. pose proof Hinv as (Hnd & Hlc & Hst & Hone).
  unfold handlePointerMove.
  destruct (lastCenter s) as [last|] eqn:Hlast; [|exact Hinv].
  destruct (map_has (pointerId e) (pointers s)) eqn:Hhas; cbn [negb]; [|exact Hinv].
  set (pts := map_set (pointerId e) (mkPoint (clientX e) (clientY e)) (pointers s)).
  assert (Hne : pts <> []) by apply map_set_nonempty.
  assert (Hst' : start (dragState s) <> None).
  { intros H. apply Hst in H. rewrite H in Hhas. discriminate Hhas. }
  assert (Htrack : start (trackDrag e (dragState s)) <> None).
  { unfold trackDrag. destruct (start (dragState s)) eqn:Hs0; [|contradiction].
    destruct (moved _); [rewrite Hs0; discriminate|].
    destruct (Rgt_dec _ 6); cbn; rewrite ?Hs0; discriminate. }
  assert (Hgoal : forall s2,
             pointers s2 = pts -> start (dragState s2) <> None ->
             pointersTracked (setLastCenter (Some (getCenter pts)) s2)).
  { intros s2 Hp2 Hs2. unfold pointersTracked.
    cbn [pointers lastCenter dragState setLastCenter]. rewrite Hp2.
    split; [apply map_set_NoDup, Hnd|].
    split; [split; [contradiction | discriminate]|].
    split; [split; [contradiction | intros H; contradiction]|].
    intros id pos Heq. rewrite Heq, getCenter_single. reflexivity. }
  destruct (Nat.eqb (map_size pts) 1).
  - apply Hgoal; [reflexivity | exact Htrack].
  - destruct (Nat.eqb (map_size pts) 2).
    + destruct mapRef as [div|].
      * cbn [lastDist setDragState setPointers].
        destruct (Rgt_dec (lastDist s) 0); apply Hgoal; try reflexivity; exact Hst'.
      * apply Hgoal; [reflexivity | exact Hst'].
    + apply Hgoal; [reflexivity | exact Hst'].
Qed.

Lemma pointersTracked_step (host : Host) (s : AppState) (ev : Event) :
  pointersTracked s -> pointersTracked (step host s ev).
Proof.
  intros Hinv. destruct ev; cbn [step].
  - exact Hinv.
  - exact Hinv.
  - apply pointersTracked_down, Hinv.
  - apply pointersTracked_move, Hinv.
  - apply pointersTracked_up, Hinv.
  - apply pointersTracked_up, Hinv.
  - unfold handleWheel. destruct mapRef; exact Hinv.
  - exact Hinv.
  - unfold startNewQuestion. destruct (geoData s); [|exact Hinv].
    unfold generateAIHint_begin.
    destruct (nth_error _ _); [destruct (nonEmpty _)|]; exact Hinv.
  - unfold generateAIHint_settle.
    destruct response; try exact Hinv.
    destruct (_ || _)%bool; exact Hinv.
  - unfold handleCountryClick.
    destruct (currentCountry s); [|exact Hinv].
    destruct (_ || _ || _)%bool; [exact Hinv|].
    destruct (suppressClick s); [exact Hinv|].
    destruct (negb _); [exact Hinv|].
    destruct (String.eqb id _); cbn; destruct (user s); exact Hinv.
  - unfold fitToRegion.
    destruct (feedback s); [|exact Hinv].
    destruct (currentCountry s); [|exact Hinv].
    destruct mapRef as [div|]; [|exact Hinv].
    destruct (svg div) as [svgEl|]; [|exact Hinv].
    destruct (match pathBBox svgEl _ with Some _ => _ | None => _ end); [|exact Hinv].
    destruct (Req_dec_T _ 0); [exact Hinv|].
    destruct (Req_dec_T _ 0); exact Hinv.
Qed.

(** X1: in every state the component reaches, the held pointers have
    distinct ids; [lastCenter] is [null] exactly when no pointer is held,
    and so is the drag start; and with exactly one pointer held
    [lastCenter] is that pointer's last position, so a pan never starts
    from a stale centre. *)
Theorem pointer_tracking_invariant :
  forall (host : Host) (evs : list Event),
    pointersTracked (run host initialState evs).
Proof.
  intros host evs.
  assert (Hgen : forall s, pointersTracked s -> pointersTracked (run host s evs)).
  { induction evs as [|ev evs IH]; intros s Hs; [exact Hs|].
    apply (IH (step host s ev)), pointersTracked_step, Hs. }
  apply Hgen. unfold pointersTracked; cbn.
  split; [constructor|].
  split; [tauto|]. split; [tauto|]. intros id pos H; discriminate H.
Qed.

(* ================================================================== *)
(** ** Panning *)

Lemma last_default (A : Type) (l : list A) (a d d' : A) :
  List.last (a :: l) d = List.last (a :: l) d'.
Proof.
  revert a. induction l as [|b l IH]; intros a; [reflexivity|].
  change (List.last (b :: l) d = List.last (b :: l) d'). apply IH.
Qed.

Lemma last_cons (A : Type) (l : list A) (a d : A) :
  List.last (a :: l) d = List.last l a.
Proof.
  destruct l as [|b l]; [reflexivity|].
  change (List.last (b :: l) d = List.last (b :: l) a). apply last_default.
Qed.

Lemma dragMoves_pan (mapRef : option MapDiv) (id : Z) (moves : list PointerEvent) :
  (forall e, In e moves -> pointerId e = id) ->
  forall (s : AppState) (pos c : Point) (anchor : PointerEvent),
    pointers s = [(id, pos)] -> lastCenter s = Some c ->
    clientX anchor = pt_x c -> clientY anchor = pt_y c ->
    let s' := dragMoves mapRef moves s in
    tr_x (transform s') = tr_x (transform s) + (clientX (List.last moves anchor) - pt_x c) /\
    tr_y (transform s') = tr_y (transform s) + (clientY (List.last moves anchor) - pt_y c) /\
    scale (transform s') = scale (transform s).
Proof.
  induction moves as [|e moves IH]; intros Hid s pos c anchor Hp Hc Hax Hay.
  - cbn. rewrite Hax, Hay. repeat split; lra.
  - assert (He : pointerId e = id) by (apply Hid; left; reflexivity). subst id.
    cbn [dragMoves fold_left].
    rewrite (handlePointerMove_single mapRef e s pos c Hp Hc).
    set (s1 := setLastCenter _ _).
    destruct (IH (fun e' H => Hid e' (or_intror H)) s1
                (mkPoint (clientX e) (clientY e)) (mkPoint (clientX e) (clientY e)) e
                eq_refl eq_refl eq_refl eq_refl) as (Hx & Hy & Hs).
    fold (dragMoves mapRef moves s1).
    rewrite last_cons.
    rewrite Hx, Hy, Hs. cbn. repeat split; lra.
Qed.

(** X2: a one-finger drag pans by exactly the finger's displacement.  From
    a state without pointers, after pointer-down and any number of moves of
    that pointer, the translation has grown by the last position minus the
    position of the pointer-down, whatever path was taken, and the scale
    is unchanged. *)
Theorem pan_follows_pointer :
  forall (mapRef : option MapDiv) (down : PointerEvent) (moves : list PointerEvent)
         (s : AppState),
    pointers s = [] ->
    (forall e, In e moves -> pointerId e = pointerId down) ->
    let s' := dragMoves mapRef moves (handlePointerDown down s) in
    tr_x (transform s') =
      tr_x (transform s) + (clientX (lastEvent down moves) - clientX down) /\
    tr_y (transform s') =
      tr_y (transform s) + (clientY (lastEvent down moves) - clientY down) /\
    scale (transform s') = scale (transform s).
Proof.
  intros mapRef down moves s Hp Hid.
  assert (Hdown : handlePointerDown down s =
                  setDragState {| start := Some (mkPoint (clientX down) (clientY down));
                                  moved := false |}
                    (setLastCenter (Some (mkPoint (clientX down) (clientY down)))
                       (setPointers [(pointerId down, mkPoint (clientX down) (clientY down))]
                          s))).
  { unfold handlePointerDown. rewrite Hp. reflexivity. }
  rewrite Hdown. unfold lastEvent.
  set (sd := setDragState _ _).
  destruct (dragMoves_pan mapRef (pointerId down) moves Hid sd
              (mkPoint (clientX down) (clientY down))
              (mkPoint (clientX down) (clientY down)) down
              eq_refl eq_refl eq_refl eq_refl) as (Hx & Hy & Hs).
  cbv zeta. split; [exact Hx|]. split; [exact Hy | exact Hs].
Qed.

Lemma pan_follows_pointer_witness :
  let s' := dragMoves (Some plainDiv) [pointerAt 1 130 90; pointerAt 1 110 100]
              (handlePointerDown (pointerAt 1 100 100) initialState) in
  tr_x (transform s') = 0 + (110 - 100) /\
  tr_y (transform s') = 0 + (100 - 100) /\
  scale (transform s') = 1.
Proof.
  apply (pan_follows_pointer (Some plainDiv) (pointerAt 1 100 100)
           [pointerAt 1 130 90; pointerAt 1 110 100] initialState eq_refl).
  intros e [<-|[<-|[]]]; reflexivity.
Defined.

(** X3: moves that are not gestures.  A move of a pointer that is not
    held changes nothing at all; a move while three or more pointers are
    held changes neither the transform nor the pinch baseline nor the drag
    state. *)
Theorem stray_moves_ignored :
  forall (mapRef : option MapDiv) (e : PointerEvent) (s : AppState),
    (map_has (pointerId e) (pointers s) = false ->
     handlePointerMove mapRef e s = s) /\
    (map_has (pointerId e) (pointers s) = true ->
     (3 <= map_size (pointers s))%nat ->
     transform (handlePointerMove mapRef e s) = transform s /\
     lastDist (handlePointerMove mapRef e s) = lastDist s /\
     dragState (handlePointerMove mapRef e s) = dragState s /\
     suppressClick (handlePointerMove mapRef e s) = suppressClick s).
Proof.
  intros mapRef e s. split.
  - intros Hhas. unfold handlePointerMove. rewrite Hhas.
    destruct (lastCenter s); reflexivity.
  - intros Hhas Hsize. unfold handlePointerMove. rewrite Hhas. cbn [negb].
    destruct (lastCenter s); [|repeat split].
    rewrite map_set_size, Hhas.
    destruct (map_size (pointers s)) as [|[|[|n]]]; try lia.
    cbn [Nat.eqb]. repeat split.
Qed.

Lemma stray_moves_ignored_witness :
  handlePointerMove (Some plainDiv) (pointerAt 7 50 50) twoFingers = twoFingers /\
  transform (handlePointerMove (Some plainDiv) (pointerAt 3 90 90) threeFingers)
    = transform threeFingers.
Proof.
  split.
  - apply (proj1 (stray_moves_ignored (Some plainDiv) (pointerAt 7 50 50) twoFingers)).
    reflexivity.
  - apply (proj2 (stray_moves_ignored (Some plainDiv) (pointerAt 3 90 90) threeFingers)).
    + reflexivity.
    + cbn. lia.
Defined.

(* ================================================================== *)
(** ** More on the zoom updater *)

Lemma transform_eq (t u : Transform) :
  tr_x t = tr_x u -> tr_y t = tr_y u -> scale t = scale u -> t = u.
Proof. destruct t, u; cbn; intros -> -> ->; reflexivity. Qed.

Lemma clamp_low (v : R) : v <= 1 -> Rmax 1 (Rmin 20 v) = 1.
Proof.
  intros Hv. rewrite Rmin_right by lra. apply Rmax_left, Hv.
Qed.

Lemma clamp_high (v : R) : 20 <= v -> Rmax 1 (Rmin 20 v) = 20.
Proof.
  intros Hv. rewrite Rmin_left by lra. apply Rmax_right; lra.
Qed.

Lemma clamp_monotone (v w : R) : v <= w -> Rmax 1 (Rmin 20 v) <= Rmax 1 (Rmin 20 w).
Proof.
  intros Hvw. apply Rle_max_compat_l, Rle_min_compat_l, Hvw.
Qed.

(** X4: at the ends of the zoom range a further zoom is a no-op on the
    whole transform.  Zooming out (factor at most 1) at scale 1 and zooming
    in (factor at least 1) at scale 20 leave translation and scale as they
    are, so the map does not drift when the user keeps scrolling. *)
Theorem zoom_at_limit_is_noop :
  forall (cx cy factor : R) (prev : Transform),
    (scale prev = 1 -> factor <= 1 -> zoomAbout cx cy factor prev = prev) /\
    (scale prev = 20 -> 1 <= factor -> zoomAbout cx cy factor prev = prev).
Proof.
  intros cx cy factor prev. split; intros Hs Hf.
  - apply transform_eq; unfold zoomAbout; cbn [tr_x tr_y scale];
      rewrite Hs, clamp_low by lra; try reflexivity; field.
  - apply transform_eq; unfold zoomAbout; cbn [tr_x tr_y scale];
      rewrite Hs, clamp_high by lra; try reflexivity; field.
Qed.

Lemma zoom_at_limit_is_noop_witness :
  zoomAbout 300 200 (1 / 2) (mkTransform 40 (-25) 1) = mkTransform 40 (-25) 1 /\
  zoomAbout 300 200 3 (mkTransform 40 (-25) 20) = mkTransform 40 (-25) 20.
Proof.
  split.
  - apply (proj1 (zoom_at_limit_is_noop 300 200 (1 / 2) (mkTransform 40 (-25) 1)));
      cbn; lra.
  - apply (proj2 (zoom_at_limit_is_noop 300 200 3 (mkTransform 40 (-25) 20)));
      cbn; lra.
Defined.

Lemma wheel_factor (d : R) :
  (d < 0 -> 1 < exp (- d * 0.001)) /\
  (0 < d -> exp (- d * 0.001) < 1) /\
  (d = 0 -> exp (- d * 0.001) = 1).
Proof.
  rewrite <- exp_0. repeat split; intros Hd.
  - apply exp_increasing. lra.
  - apply exp_increasing. lra.
  - f_equal. lra.
Qed.

(** X5: the wheel zooms in the direction of the scroll.  With the scale
    in range, a negative [deltaY] never lowers the scale, a positive one
    never raises it, and [deltaY = 0] leaves the transform as it is. *)
Theorem wheel_direction :
  forall (div : MapDiv) (e : WheelEvent) (s : AppState),
    scaleInRange (transform s) ->
    let s' := handleWheel (Some div) e s in
    (deltaY e < 0 -> scale (transform s) <= scale (transform s')) /\
    (0 < deltaY e -> scale (transform s') <= scale (transform s)) /\
    (deltaY e = 0 -> transform s' = transform s).
Proof.
  intros div e s [Hlo Hhi]. unfold minScale, maxScale in *.
  destruct (wheel_factor (deltaY e)) as (Hin & Hout & Hzero).
  cbn [handleWheel transform setTransform]. unfold zoomAbout. cbn [scale].
  repeat split; intros Hd.
  - rewrite <- (clamp_id (scale (transform s))) at 1 by lra.
    apply clamp_monotone. specialize (Hin Hd). nra.
  - rewrite <- (clamp_id (scale (transform s))) at 2 by lra.
    apply clamp_monotone. specialize (Hout Hd). nra.
  - rewrite (Hzero Hd), Rmult_1_r, clamp_id by lra.
    apply transform_eq; cbn [tr_x tr_y scale]; try reflexivity; field; lra.
Qed.

Lemma wheel_direction_witness :
  let s' := handleWheel (Some plainDiv) (mkWheelEvent 10 10 (-100)) initialState in
  scale (transform initialState) <= scale (transform s').
Proof.
  apply (wheel_direction plainDiv (mkWheelEvent 10 10 (-100)) initialState).
  - unfold scaleInRange, minScale, maxScale. cbn. lra.
  - cbn. lra.
Defined.

(** X6: the content point under the anchor stays put also when the clamp
    cuts the requested scale.  For a previous scale in range and any
    factor, the content coordinates shown at the anchor are the same
    before and after the zoom updater. *)
Theorem zoom_keeps_anchor_when_clamped :
  forall (cx cy factor : R) (prev : Transform),
    scaleInRange prev ->
    let next := zoomAbout cx cy factor prev in
    toContent (tr_x next) (scale next) cx = toContent (tr_x prev) (scale prev) cx /\
    toContent (tr_y next) (scale next) cy = toContent (tr_y prev) (scale prev) cy.
Proof.
  intros cx cy factor prev [Hlo Hhi]. unfold minScale, maxScale in *.
  unfold zoomAbout; cbn [tr_x tr_y scale].
  set (n := Rmax 1 (Rmin 20 (scale prev * factor))).
  assert (Hn : 1 <= n) by apply clamp_in_range.
  unfold toContent. split; field; split; lra.
Qed.

Lemma zoom_keeps_anchor_when_clamped_witness :
  let prev := mkTransform 40 (-25) 4 in
  let next := zoomAbout 300 200 1000 prev in
  toContent (tr_x next) (scale next) 300 = toContent 40 4 300 /\
  toContent (tr_y next) (scale next) 200 = toContent (-25) 4 200.
Proof.
  apply (zoom_keeps_anchor_when_clamped 300 200 1000 (mkTransform 40 (-25) 4)).
  unfold scaleInRange, minScale, maxScale. cbn. lra.
Defined.

(** X7: zoom steps about one anchor compose.  When neither step is cut by
    the clamp, zooming by [a] and then by [b] about the same point gives
    the same transform as zooming once by [a * b]. *)
Theorem zoom_steps_compose :
  forall (cx cy a b : R) (prev : Transform),
    1 <= scale prev * a <= 20 ->
    1 <= scale prev * a * b <= 20 ->
    zoomAbout cx cy b (zoomAbout cx cy a prev) = zoomAbout cx cy (a * b) prev.
Proof.
  intros cx cy a b prev Ha Hab.
  assert (Hp : scale prev <> 0) by (intros Hz; rewrite Hz in Ha; lra).
  assert (Ha0 : a <> 0) by (intros Hz; rewrite Hz in Ha; lra).
  assert (Hpa : scale prev * a <> 0) by lra.
  apply transform_eq; unfold zoomAbout; cbn [tr_x tr_y scale];
    rewrite (clamp_id (scale prev * a)) by exact Ha;
    rewrite (clamp_id (scale prev * a * b)) by exact Hab;
    replace (scale prev * (a * b)) with (scale prev * a * b) by ring;
    rewrite (clamp_id (scale prev * a * b)) by exact Hab;
    try reflexivity; field; repeat split; assumption.
Qed.

Lemma zoom_steps_compose_witness :
  zoomAbout 300 200 3 (zoomAbout 300 200 2 (mkTransform 40 (-25) 1))
  = zoomAbout 300 200 (2 * 3) (mkTransform 40 (-25) 1).
Proof.
  apply zoom_steps_compose; cbn; lra.
Defined.

(* ================================================================== *)
(** ** Fit to region *)

(** X8: the fitted transform puts the centre of the region's box at the
    centre of the container, clamped or not; and when the scale needed is
    inside the zoom range (and all sizes are positive), the box, at least
    one unit wide and high, fits into the container less 40 pixels of
    padding on every side and touches the padding on one axis. *)
Theorem fit_centres_and_pads :
  forall (viewWidth viewHeight containerWidth containerHeight : R) (bounds : Bounds),
    let t := fitTransform viewWidth viewHeight containerWidth containerHeight bounds in
    let baseScale := Rmin (containerWidth / viewWidth) (containerHeight / viewHeight) in
    let width := Rmax 1 (maxX bounds - minX bounds) in
    let height := Rmax 1 (maxY bounds - minY bounds) in
    toScreen (tr_x t) (scale t)
      (svgToCss viewWidth containerWidth baseScale ((minX bounds + maxX bounds) / 2))
      = containerWidth / 2 /\
    toScreen (tr_y t) (scale t)
      (svgToCss viewHeight containerHeight baseScale ((minY bounds + maxY bounds) / 2))
      = containerHeight / 2 /\
    (0 < viewWidth -> 0 < viewHeight -> 0 < containerWidth -> 0 < containerHeight ->
     1 <= Rmin ((containerWidth - 40 * 2) / (width * baseScale))
               ((containerHeight - 40 * 2) / (height * baseScale)) <= 20 ->
     width * baseScale * scale t <= containerWidth - 40 * 2 /\
     height * baseScale * scale t <= containerHeight - 40 * 2 /\
     (width * baseScale * scale t = containerWidth - 40 * 2 \/
      height * baseScale * scale t = containerHeight - 40 * 2)).
Proof.
  intros vw vh cw ch b t baseScale width height.
  split; [unfold t, fitTransform, toScreen, svgToCss; cbn [tr_x scale]; fold baseScale; lra|].
  split; [unfold t, fitTransform, toScreen, svgToCss; cbn [tr_y scale]; fold baseScale; lra|].
  intros Hvw Hvh Hcw Hch Hrange.
  assert (Hbs : 0 < baseScale).
  { unfold baseScale. apply Rmin_glb_lt; apply Rdiv_lt_0_compat; assumption. }
  assert (Hw : 1 <= width) by apply Rmax_l.
  assert (Hh : 1 <= height) by apply Rmax_l.
  assert (Hwb : 0 < width * baseScale) by nra.
  assert (Hhb : 0 < height * baseScale) by nra.
  assert (Hs : scale t = Rmin ((cw - 40 * 2) / (width * baseScale))
                              ((ch - 40 * 2) / (height * baseScale))).
  { unfold t, fitTransform. cbn [scale]. fold baseScale width height.
    apply clamp_id, Hrange. }
  rewrite Hs.
  set (sx := (cw - 40 * 2) / (width * baseScale)) in *.
  set (sy := (ch - 40 * 2) / (height * baseScale)) in *.
  assert (Hsx : width * baseScale * sx = cw - 40 * 2) by (unfold sx; field; lra).
  assert (Hsy : height * baseScale * sy = ch - 40 * 2) by (unfold sy; field; lra).
  destruct (Rmin_cases sx sy) as [[-> Hle]|[-> Hle]].
  - split; [lra|]. split; [|left; exact Hsx].
    rewrite <- Hsy. apply Rmult_le_compat_l; lra.
  - split; [|split; [lra | right; exact Hsy]].
    rewrite <- Hsx. apply Rmult_le_compat_l; lra.
Qed.

Lemma fit_centres_and_pads_witness :
  let t := fitTransform 800 400 800 400 (mkBounds 100 280 50 110) in
  180 * 1 * scale t <= 800 - 40 * 2 /\
  60 * 1 * scale t <= 400 - 40 * 2 /\
  (180 * 1 * scale t = 800 - 40 * 2 \/ 60 * 1 * scale t = 400 - 40 * 2).
Proof.
  pose proof (fit_centres_and_pads 800 400 800 400 (mkBounds 100 280 50 110)) as H.
  cbv zeta in H. cbn [minX maxX minY maxY] in H.
  replace (Rmin (800 / 800) (400 / 400)) with 1 in H
    by (rewrite Rmin_left; lra).
  replace (Rmax 1 (280 - 100)) with 180 in H by (rewrite Rmax_right; lra).
  replace (Rmax 1 (110 - 50)) with 60 in H by (rewrite Rmax_right; lra).
  destruct H as (_ & _ & H).
  apply H; try lra.
  rewrite Rmin_left; lra.
Defined.

(** X9: a fit touches nothing but the transform and replaces it outright:
    whatever pan and zoom were in place, the fit either does not happen
    (and the state is as it was) or ends in the same state. *)
Theorem fit_forgets_previous_transform :
  forall (mapRef : option MapDiv) (s : AppState) (t : Transform),
    (fitToRegion mapRef s = s /\
     fitToRegion mapRef (setTransform t s) = setTransform t s) \/
    (fitToRegion mapRef (setTransform t s) = fitToRegion mapRef s /\
     fitToRegion mapRef s = setTransform (transform (fitToRegion mapRef s)) s).
Proof.
  intros mapRef s t. unfold fitToRegion.
  cbn [feedback currentCountry setTransform].
  destruct (feedback s); [|left; split; reflexivity].
  destruct (currentCountry s) as [country|]; [|left; split; reflexivity].
  destruct mapRef as [div|]; [|left; split; reflexivity].
  destruct (svg div) as [svgEl|]; [|left; split; reflexivity].
  destruct (match pathBBox svgEl _ with Some _ => _ | None => _ end) as [b|];
    [|left; split; reflexivity].
  destruct (Req_dec_T (clientWidth div) 0); [left; split; reflexivity|].
  destruct (Req_dec_T (clientHeight div) 0); [left; split; reflexivity|].
  right. split; reflexivity.
Qed.

(* ================================================================== *)
(** ** Projected bounds *)

Lemma cornersMatch_grow (b : Bounds) (box : LatLonBox) (p : Position) :
  cornersMatch b box -> cornersMatch (growBounds b p) (growBox box p).
Proof.
  destruct p as [lon lat]. unfold cornersMatch, growBounds, growBox, project.
  cbn [fst snd minX maxX minY maxY minLat maxLat minLon maxLon].
  unfold MAP_WIDTH, MAP_HEIGHT.
  intros [Hmin Hmax]. injection Hmin as Hx0 Hy0. injection Hmax as Hx1 Hy1.
  rewrite Hx0, Hy0, Hx1, Hy1. split; f_equal.
  - destruct (Rmin_cases (minLon box) lon) as [[-> H]|[-> H]];
      [apply Rmin_left | apply Rmin_right]; lra.
  - destruct (Rmax_cases (maxLat box) lat) as [[-> H]|[-> H]];
      [apply Rmin_right | apply Rmin_left]; lra.
  - destruct (Rmax_cases (maxLon box) lon) as [[-> H]|[-> H]];
      [apply Rmax_right | apply Rmax_left]; lra.
  - destruct (Rmin_cases (minLat box) lat) as [[-> H]|[-> H]];
      [apply Rmax_left | apply Rmax_right]; lra.
Qed.

Lemma cornersMatch_fold (rest : list Position) :
  forall (b : Bounds) (box : LatLonBox),
    cornersMatch b box ->
    cornersMatch (fold_left growBounds rest b) (fold_left growBox rest box).
Proof.
  induction rest as [|p rest IH]; intros b box H; [exact H|].
  apply IH, cornersMatch_grow, H.
Qed.

Lemma regionFrame_of_box (g : Geometry) (b : Bounds) (box : LatLonBox) :
  regionBox g box -> cornersMatch b box -> regionFrame g b.
Proof.
  intros ((p1 & Hp1 & H1) & (p2 & Hp2 & H2) & (p3 & Hp3 & H3)
          & (p4 & Hp4 & H4) & Hall) [Hmin Hmax].
  unfold project in Hmin, Hmax. cbn [fst snd] in Hmin, Hmax.
  injection Hmin as Hx0 Hy0. injection Hmax as Hx1 Hy1.
  unfold regionFrame, project. cbn [fst snd].
  rewrite Hx0, Hy0, Hx1, Hy1. unfold MAP_WIDTH, MAP_HEIGHT.
  split; [exists p3; split; [assumption | rewrite H3; reflexivity]|].
  split; [exists p4; split; [assumption | rewrite H4; reflexivity]|].
  split; [exists p2; split; [assumption | rewrite H2; reflexivity]|].
  split; [exists p1; split; [assumption | rewrite H1; reflexivity]|].
  intros p Hp. destruct (Hall p Hp) as [[? ?] [? ?]]. split; split; lra.
Qed.

(** X10: the projected bounds of a region.  A region without a point on
    any of its rings has none.  Otherwise they are the projection, north
    up, of the bounding box of the points on its rings: the top left
    corner is the projection of (west, north), the bottom right one that
    of (east, south); every bound is attained by the projection of a point
    of the region and holds for the projections of all of them; and the
    box is not inverted. *)
Theorem projected_bounds_of_box :
  forall (feature : GeoFeature),
    ((forall p, ~ regionPoint (geometry feature) p) ->
     getProjectedBounds feature = None) /\
    ((exists p, regionPoint (geometry feature) p) ->
     exists (b : Bounds) (box : LatLonBox),
       getProjectedBounds feature = Some b /\
       regionBox (geometry feature) box /\
       cornersMatch b box /\
       regionFrame (geometry feature) b /\
       minX b <= maxX b /\ minY b <= maxY b).
Proof.
  intros feature. unfold getProjectedBounds. split.
  - intros Hnone.
    pose proof (fun p => proj1 (extractPoints_regionPoint (geometry feature) p)) as Hin.
    destruct (extractPoints (geometry feature)) as [|first rest]; [reflexivity|].
    destruct (Hnone first (Hin first (or_introl eq_refl))).
  - intros (p0 & Hp0). apply extractPoints_regionPoint in Hp0.
    pose proof (regionBox_of_points (geometry feature)) as Hbox.
    destruct (extractPoints (geometry feature)) as [|first rest]; [destruct Hp0|].
    destruct (project first) as [x y] eqn:Hproj.
    eexists. exists (latLonBox first rest). split; [reflexivity|].
    assert (Hc : cornersMatch
                   (fold_left growBounds rest
                      {| minX := x; maxX := x; minY := y; maxY := y |})
                   (latLonBox first rest)).
    { apply cornersMatch_fold. unfold cornersMatch.
      cbn [minX maxX minY maxY minLat maxLat minLon maxLon].
      rewrite <- Hproj. destruct first; split; reflexivity. }
    specialize (Hbox _ (latLonBox_bounding first rest)).
    split; [exact Hbox|].
    split; [exact Hc|].
    split; [exact (regionFrame_of_box _ _ _ Hbox Hc)|].
    destruct Hc as [Hmin Hmax]. unfold project in Hmin, Hmax.
    cbn [fst snd] in Hmin, Hmax.
    injection Hmin as -> ->. injection Hmax as -> ->.
    destruct (latLonBox_bounding first rest) as (_ & _ & _ & _ & Hall).
    destruct (Hall first (or_introl eq_refl)) as [[? ?] [? ?]].
    unfold MAP_WIDTH, MAP_HEIGHT. split; lra.
Qed.

(** The square of the test fixture, (-120, 60) to (120, -20), is drawn
    from (400/3, 200/3) to (2000/3, 2200/9). *)
Lemma projected_bounds_of_box_witness :
  getProjectedBounds japan
  = Some {| minX := 400 / 3; maxX := 2000 / 3; minY := 200 / 3; maxY := 2200 / 9 |}.
Proof.
  destruct (proj2 (projected_bounds_of_box japan)
              (ex_intro _ (120, -20) (japan_point 120 (-20) ltac:(cbn; auto))))
    as (b & box & Hb & _ & _ & Hframe & _).
  rewrite Hb. clear Hb. f_equal.
  destruct Hframe as ((p1 & Hp1 & H1) & (p2 & Hp2 & H2) & (p3 & Hp3 & H3)
                      & (p4 & Hp4 & H4) & Hall).
  pose proof (Hall _ (japan_point (-120) 60 ltac:(cbn; auto))) as [[A1 A2] [A3 A4]].
  pose proof (Hall _ (japan_point 120 (-20) ltac:(cbn; auto))) as [[B1 B2] [B3 B4]].
  unfold project, MAP_WIDTH, MAP_HEIGHT in *.
  cbn [fst snd] in *.
  assert (E1 : minX b = 400 / 3).
  { rewrite <- H1. destruct (japan_points p1 Hp1) as [-> | [-> | [-> | ->]]];
      cbn [fst] in *; lra. }
  assert (E2 : maxX b = 2000 / 3).
  { rewrite <- H2. destruct (japan_points p2 Hp2) as [-> | [-> | [-> | ->]]];
      cbn [fst] in *; lra. }
  assert (E3 : minY b = 200 / 3).
  { rewrite <- H3. destruct (japan_points p3 Hp3) as [-> | [-> | [-> | ->]]];
      cbn [snd] in *; lra. }
  assert (E4 : maxY b = 2200 / 9).
  { rewrite <- H4. destruct (japan_points p4 Hp4) as [-> | [-> | [-> | ->]]];
      cbn [snd] in *; lra. }
  destruct b as [x0 x1 y0 y1]. cbn [minX maxX minY maxY] in E1, E2, E3, E4.
  subst. reflexivity.
Defined.

(* ================================================================== *)
(** ** Names and identifiers *)

(** X11: names and identifiers are never empty, whatever the properties
    hold, because each chain of alternatives ends in a literal; so the
    [if (!targetId) return] of [handleCountryClick] never fires, and a
    click that passes the four guards with the suppression flag down is
    always answered. *)
Theorem names_never_empty :
  forall (host : Host) (p : GeoProperties),
    nonEmpty (getEnglishName p) = true /\
    nonEmpty (getCountryId p) = true /\
    nonEmpty (getJapaneseName host p) = true /\
    (forall id name now s country,
       currentCountry s = Some country -> properties country = p ->
       feedback s = None -> loading s = false ->
       (map_size (pointers s) <= 1)%nat -> suppressClick s = false ->
       feedback (handleCountryClick host id name now s) <> None).
Proof.
  intros host p.
  split; [apply getEnglishName_nonEmpty|].
  split; [apply getCountryId_nonEmpty|].
  split; [apply getJapaneseName_nonEmpty|].
  intros id name now s country Hc _ Hf Hl Hp Hs.
  apply (click_answers host id name now s country Hc Hf Hl Hp Hs).
Qed.

Lemma names_never_empty_witness :
  nonEmpty (getCountryId emptyProperties) = true /\
  feedback (handleCountryClick plainHost "FRA" "フランス" "t" roundStarted) <> None.
Proof.
  destruct (names_never_empty plainHost emptyProperties) as (_ & Hid & _ & _).
  destruct (names_never_empty plainHost japanProperties) as (_ & _ & _ & Hclick).
  split; [exact Hid|].
  apply (Hclick "FRA"%string "フランス"%string "t"%string roundStarted japan);
    try reflexivity.
  cbn. lia.
Defined.

Lemma orDefault_own (a : option string) (d : string) :
  truthy a = true -> Some (orDefault a d) = a.
Proof.
  destruct a as [v|]; cbn; [|discriminate].
  intros ->. reflexivity.
Qed.

Lemma orElse_cases (a b : option string) :
  (truthy a = true /\ orElse a b = a) \/ (truthy a = false /\ orElse a b = b).
Proof. unfold orElse. destruct (truthy a); auto. Qed.

Lemma named_english (p : GeoProperties) :
  hasName (Some p) = true -> In (Some (getEnglishName p)) [ADMIN p; name p].
Proof.
  cbn [hasName]. intros Hn. unfold getEnglishName.
  rewrite (orDefault_own _ _ Hn).
  destruct (orElse_cases (ADMIN p) (name p)) as [[_ ->]|[_ ->]]; cbn; auto.
Qed.

Lemma named_id (p : GeoProperties) :
  hasName (Some p) = true ->
  In (Some (getCountryId p)) [ISO_A3 p; ISO3166_1_Alpha_3 p; name p; ADMIN p].
Proof.
  cbn [hasName]. intros Hn. unfold getCountryId.
  assert (Hna : truthy (orElse (name p) (ADMIN p)) = true).
  { destruct (orElse_cases (ADMIN p) (name p)) as [[Ha Hq]|[Ha Hq]]; rewrite Hq in Hn;
      destruct (orElse_cases (name p) (ADMIN p)) as [[Hb ->]|[Hb ->]]; congruence. }
  assert (Hall : truthy (orElse (ISO_A3 p)
                           (orElse (ISO3166_1_Alpha_3 p) (orElse (name p) (ADMIN p))))
                 = true).
  { destruct (orElse_cases (ISO_A3 p)
                (orElse (ISO3166_1_Alpha_3 p) (orElse (name p) (ADMIN p))))
      as [[H ->]|[_ ->]]; [exact H|].
    destruct (orElse_cases (ISO3166_1_Alpha_3 p) (orElse (name p) (ADMIN p)))
      as [[H ->]|[_ ->]]; [exact H | exact Hna]. }
  rewrite (orDefault_own _ _ Hall).
  destruct (orElse_cases (ISO_A3 p)
              (orElse (ISO3166_1_Alpha_3 p) (orElse (name p) (ADMIN p))))
    as [[_ ->]|[_ ->]]; [cbn; auto|].
  destruct (orElse_cases (ISO3166_1_Alpha_3 p) (orElse (name p) (ADMIN p)))
    as [[_ ->]|[_ ->]]; [cbn; auto|].
  destruct (orElse_cases (name p) (ADMIN p)) as [[_ ->]|[_ ->]]; cbn; auto.
Qed.

Lemma validFeatures_named (features : option (list RawGeoFeature)) (f : GeoFeature) :
  In f (validFeatures features) -> hasName (Some (properties f)) = true.
Proof.
  intros Hin. apply keepNonNull_In, in_map_iff in Hin as (raw & Hraw & _).
  apply toGeoFeature_Some in Hraw as (_ & _ & Hn). exact Hn.
Qed.

(** X12: a loaded region never shows a placeholder.  Its English name is
    its own [ADMIN] or [name] field, never ['Unknown'] by default, and its
    identifier is one of its own four identifying fields, never
    ['unknown'] by default. *)
Theorem loaded_regions_use_own_names :
  forall (features : option (list RawGeoFeature)) (f : GeoFeature),
    In f (validFeatures features) ->
    In (Some (getEnglishName (properties f)))
       [ADMIN (properties f); name (properties f)] /\
    In (Some (getCountryId (properties f)))
       [ISO_A3 (properties f); ISO3166_1_Alpha_3 (properties f);
        name (properties f); ADMIN (properties f)].
Proof.
  intros features f Hin. apply validFeatures_named in Hin.
  split; [apply named_english | apply named_id]; exact Hin.
Qed.

Lemma loaded_regions_use_own_names_witness :
  In (Some (getEnglishName (properties japan)))
     [ADMIN (properties japan); name (properties japan)] /\
  In (Some (getCountryId (properties japan)))
     [ISO_A3 (properties japan); ISO3166_1_Alpha_3 (properties japan);
      name (properties japan); ADMIN (properties japan)].
Proof.
  apply (loaded_regions_use_own_names (Some [japanRaw]) japan).
  left. reflexivity.
Defined.

(* ================================================================== *)
(** ** Answers, verdicts and the score *)

(** X13: how an accepted selection is judged.  The selection is recorded;
    it is correct exactly when the clicked identifier is the target's
    identifier, whatever the clicked name; a correct answer adds 10 to the
    score and says so, a wrong answer leaves the score and names both the
    clicked region and the target; target and transform are untouched. *)
Theorem answer_is_judged_by_identifier :
  forall (host : Host) (id name now : string) (s : AppState) (country : GeoFeature),
    currentCountry s = Some country -> feedback s = None -> loading s = false ->
    (map_size (pointers s) <= 1)%nat -> suppressClick s = false ->
    let s' := handleCountryClick host id name now s in
    selectedId s' = Some id /\
    currentCountry s' = Some country /\
    transform s' = transform s /\
    (id = getCountryId (properties country) ->
     feedback s' = Some {| isCorrect := true; message := "正解！" |} /\
     score s' = (score s + 10)%Z) /\
    (id <> getCountryId (properties country) ->
     feedback s' =
       Some {| isCorrect := false;
               message := ("違います。そこは「" ++ name ++ "」です。正解は「"
                             ++ getJapaneseName host (properties country)
                             ++ "」です。")%string |} /\
     score s' = score s).
Proof.
  intros host id name now s country Hc Hf Hl Hp Hs s'.
  unfold s', handleCountryClick.
  rewrite Hc, Hf, Hl, Hs. cbn [isSome orb].
  apply Nat.ltb_ge in Hp. rewrite Hp.
  rewrite getCountryId_nonEmpty. cbn [negb].
  destruct (String.eqb_spec id (getCountryId (properties country))) as [Heq|Hne].
  - cbn. destruct (user s); cbn; repeat split; try assumption; intros;
      try contradiction; reflexivity.
  - cbn. destruct (user s); cbn; repeat split; try assumption; intros;
      try contradiction; reflexivity.
Qed.

Lemma answer_is_judged_by_identifier_witness :
  let s' := handleCountryClick plainHost "JPN" "どこか" "t" roundStarted in
  feedback s' = Some {| isCorrect := true; message := "正解！" |} /\
  score s' = (score roundStarted + 10)%Z.
Proof.
  destruct (answer_is_judged_by_identifier plainHost "JPN" "どこか" "t" roundStarted
              japan eq_refl eq_refl eq_refl ltac:(cbn; lia) eq_refl)
    as (_ & _ & _ & Hright & _).
  apply Hright. reflexivity.
Defined.

(** Viewport events leave the quiz side alone. *)
Lemma step_viewport_quiz (host : Host) (s : AppState) (ev : Event) :
  viewportEvent ev = true -> quizPart (step host s ev) = quizPart s.
Proof.
  intros Hv. destruct ev as [features|uid|e|mapRef e|e|e|mapRef e| |pick|feature response|id nm now|mapRef];
      try discriminate Hv; cbn [step].
  - unfold handlePointerDown.
    destruct (Nat.eqb _ 2); destruct (Nat.eqb _ 1); reflexivity.
  - unfold handlePointerMove.
    destruct (lastCenter s); [|reflexivity].
    destruct (negb _); [reflexivity|].
    destruct (Nat.eqb _ 1); [reflexivity|].
    destruct (Nat.eqb _ 2); [|reflexivity].
    destruct mapRef; [|reflexivity].
    cbn. destruct (Rgt_dec _ 0); reflexivity.
  - unfold handlePointerUp.
    destruct (moved _); destruct (Nat.eqb _ 1); destruct (Nat.eqb _ 0); reflexivity.
  - unfold handlePointerUp.
    destruct (moved _); destruct (Nat.eqb _ 1); destruct (Nat.eqb _ 0); reflexivity.
  - unfold handleWheel. destruct mapRef; reflexivity.
  - reflexivity.
  - unfold fitToRegion.
    destruct (feedback s); [|reflexivity].
    destruct (currentCountry s); [|reflexivity].
    destruct mapRef as [div|]; [|reflexivity].
    destruct (svg div) as [svgEl|]; [|reflexivity].
    destruct (match pathBBox svgEl _ with Some _ => _ | None => _ end); [|reflexivity].
    destruct (Req_dec_T _ 0); [reflexivity|].
    destruct (Req_dec_T _ 0); reflexivity.
Qed.

Lemma quizPart_fields (s s' : AppState) :
  quizPart s' = quizPart s ->
  user s' = user s /\ geoData s' = geoData s /\ currentCountry s' = currentCountry s /\
  hint s' = hint s /\ loading s' = loading s /\ feedback s' = feedback s /\
  score s' = score s /\ selectedId s' = selectedId s /\
  hintRequests s' = hintRequests s /\ historyWrites s' = historyWrites s.
Proof.
  unfold quizPart. intros H. injection H as -> -> -> -> -> -> -> -> -> ->.
  repeat split.
Qed.

(** What [generateAIHint] may touch: hint, loading and the request log. *)
Lemma generateAIHint_begin_frame (host : Host) (feature : option GeoFeature)
    (s : AppState) :
  let s' := generateAIHint_begin host feature s in
  user s' = user s /\ geoData s' = geoData s /\ currentCountry s' = currentCountry s /\
  feedback s' = feedback s /\ score s' = score s /\ selectedId s' = selectedId s /\
  historyWrites s' = historyWrites s.
Proof.
  unfold generateAIHint_begin.
  destruct feature; [destruct (nonEmpty _)|]; repeat split.
Qed.

Lemma generateAIHint_settle_frame (host : Host) (feature : GeoFeature)
    (response : HintResponse) (s : AppState) :
  let s' := generateAIHint_settle host feature response s in
  user s' = user s /\ geoData s' = geoData s /\ currentCountry s' = currentCountry s /\
  feedback s' = feedback s /\ score s' = score s /\ selectedId s' = selectedId s /\
  hintRequests s' = hintRequests s /\ historyWrites s' = historyWrites s.
Proof.
  unfold generateAIHint_settle.
  destruct response; try (repeat split; fail).
  destruct (_ || _)%bool; repeat split.
Qed.

(** The three things a click can do. *)
Lemma handleCountryClick_cases (host : Host) (id name now : string) (s : AppState) :
  let s' := handleCountryClick host id name now s in
  s' = s \/
  s' = setSuppressClick false s \/
  (exists country,
     currentCountry s = Some country /\ feedback s = None /\
     currentCountry s' = Some country /\
     selectedId s' = Some id /\
     (exists fb, feedback s' = Some fb /\
                 isCorrect fb = String.eqb id (getCountryId (properties country)) /\
                 score s' = (score s + if isCorrect fb then 10 else 0)%Z) /\
     user s' = user s /\ geoData s' = geoData s /\
     hintRequests s' = hintRequests s /\
     (user s = None -> historyWrites s' = historyWrites s)).
Proof.
  unfold handleCountryClick.
  destruct (currentCountry s) as [country|] eqn:Hc; [|left; reflexivity].
  destruct (feedback s) eqn:Hf; [left; reflexivity|].
  cbn [isSome orb].
  destruct (loading s || _)%bool; [left; reflexivity|].
  destruct (suppressClick s); [right; left; reflexivity|].
  destruct (negb _); [left; reflexivity|].
  right. right. exists country.
  split; [reflexivity|]. split; [reflexivity|].
  destruct (String.eqb id _) eqn:Heq; cbn; destruct (user s) eqn:Hu; cbn;
    (split; [exact Hc|]); (split; [reflexivity|]);
    (split; [eexists; split; [reflexivity|]; cbn; split; [reflexivity | lia]|]);
    repeat split; try assumption; try discriminate.
Qed.

Lemma scoreWithin_same (s s' : AppState) (n n' : Z) :
  score s' = score s -> feedback s' = feedback s ->
  currentCountry s' = currentCountry s -> (n <= n')%Z ->
  scoreWithin s n -> (score s <= score s')%Z /\ scoreWithin s' n'.
Proof.
  intros Hs Hf Hc Hn (H0 & [k Hk] & Hle & Hopen). unfold scoreWithin.
  rewrite Hs, Hf, Hc. split; [lia|]. split; [exact H0|].
  split; [exists k; exact Hk|]. split; [lia|].
  intros Hnone Hopened. specialize (Hopen Hnone Hopened). lia.
Qed.

Lemma scoreWithin_step (host : Host) (s : AppState) (ev : Event) (n : Z) :
  scoreWithin s n ->
  (score s <= score (step host s ev))%Z /\
  scoreWithin (step host s ev) (n + roundsStarted [ev]).
Proof.
  intros Hinv.
  destruct (viewportEvent ev) eqn:Hv.
  - destruct (quizPart_fields _ _ (step_viewport_quiz host s ev Hv))
      as (_ & _ & Hc & _ & _ & Hf & Hs & _).
    apply (scoreWithin_same s _ n); try assumption.
    destruct ev; try discriminate Hv; cbn; lia.
  - destruct ev as [features|uid|e|mapRef e|e|e|mapRef e| |pick|feature response|id nm now|mapRef];
      try discriminate Hv; cbn [step roundsStarted].
    + apply (scoreWithin_same s _ n); try assumption; try reflexivity. lia.
    + apply (scoreWithin_same s _ n); try assumption; try reflexivity. lia.
    + unfold startNewQuestion. destruct (geoData s).
      * destruct (generateAIHint_begin_frame host (nth_error l pick)
                    (setIsHintMinimized false
                       (setSelectedId None
                          (setFeedback None (setCurrentCountry (nth_error l pick) s)))))
          as (_ & _ & _ & Hf & Hs & _).
        destruct Hinv as (H0 & [k Hk] & Hle & Hopen). unfold scoreWithin.
        rewrite Hs, Hf.
        cbn [score feedback setIsHintMinimized setSelectedId setFeedback
               setCurrentCountry].
        split; [lia|]. split; [exact H0|]. split; [exists k; exact Hk|].
        split; [lia|]. intros _ _. lia.
      * apply (scoreWithin_same s _ n); try assumption; try reflexivity. lia.
    + destruct (generateAIHint_settle_frame host feature response s)
        as (_ & _ & Hc & Hf & Hs & _).
      apply (scoreWithin_same s _ n); try assumption. lia.
    + destruct (handleCountryClick_cases host id nm now s)
        as [->|[->|(country & Hc & Hf & _ & _ & (fb & Hfb & _ & Hs) & _)]].
      * apply (scoreWithin_same s _ n); try assumption; try reflexivity. lia.
      * apply (scoreWithin_same s _ n); try assumption; try reflexivity. lia.
      * destruct Hinv as (H0 & [k Hk] & Hle & Hopen).
        assert (Hroom : (score s + 10 <= 10 * n)%Z)
          by (apply Hopen; [exact Hf | rewrite Hc; discriminate]).
        unfold scoreWithin. rewrite Hs, Hfb.
        destruct (isCorrect fb).
        -- split; [lia|]. split; [lia|]. split; [exists (k + 1)%Z; lia|].
           split; [lia | discriminate].
        -- split; [lia|]. split; [lia|]. split; [exists k; lia|].
           split; [lia | discriminate].
Qed.

Lemma roundsStarted_cons (ev : Event) (evs : list Event) :
  roundsStarted (ev :: evs) = (roundsStarted [ev] + roundsStarted evs)%Z.
Proof. destruct ev; cbn [roundsStarted]; lia. Qed.

Lemma scoreWithin_run (host : Host) (evs : list Event) :
  forall (s : AppState) (n : Z),
    scoreWithin s n ->
    (score s <= score (run host s evs))%Z /\
    scoreWithin (run host s evs) (n + roundsStarted evs).
Proof.
  induction evs as [|ev evs IH]; intros s n Hinv.
  - cbn [run fold_left roundsStarted]. rewrite Z.add_0_r. split; [lia | exact Hinv].
  - destruct (scoreWithin_step host s ev n Hinv) as (Hmono & Hstep).
    destruct (IH _ _ Hstep) as (Hmono' & Hrun).
    change (run host s (ev :: evs)) with (run host (step host s ev) evs).
    rewrite roundsStarted_cons, Z.add_assoc. split; [lia | exact Hrun].
Qed.

(** X14: the score.  In every state the component reaches, the score is
    a non-negative multiple of 10 and at most 10 times the number of
    questions started: a question is awarded at most once. *)
Theorem score_bounded_by_rounds :
  forall (host : Host) (evs : list Event),
    let s := run host initialState evs in
    (0 <= score s <= 10 * roundsStarted evs)%Z /\
    (exists k, score s = 10 * k)%Z /\
    (forall more, score s <= score (run host s more))%Z.
Proof.
  intros host evs.
  assert (Hinit : scoreWithin initialState 0).
  { unfold scoreWithin. cbn. split; [lia|]. split; [exists 0%Z; reflexivity|].
    split; [lia|]. intros _ Hopened. contradiction. }
  destruct (scoreWithin_run host evs initialState 0%Z Hinit)
    as (_ & Hfinal).
  pose proof Hfinal as (H0 & Hk & Hn & _).
  cbv zeta. rewrite Z.add_0_l in Hn.
  split; [split; assumption|]. split; [exact Hk|].
  intros more. apply (scoreWithin_run host more _ _ Hfinal).
Qed.

Lemma verdictCoherent_same (s s' : AppState) :
  feedback s' = feedback s -> selectedId s' = selectedId s ->
  currentCountry s' = currentCountry s ->
  verdictCoherent s -> verdictCoherent s'.
Proof.
  unfold verdictCoherent. intros -> -> ->. exact (fun H => H).
Qed.

Lemma verdictCoherent_step (host : Host) (s : AppState) (ev : Event) :
  verdictCoherent s -> verdictCoherent (step host s ev).
Proof.
  intros Hinv.
  destruct (viewportEvent ev) eqn:Hv.
  - destruct (quizPart_fields _ _ (step_viewport_quiz host s ev Hv))
      as (_ & _ & Hc & _ & _ & Hf & _ & Hsel & _).
    apply (verdictCoherent_same s); assumption.
  - destruct ev as [features|uid|e|mapRef e|e|e|mapRef e| |pick|feature response|id nm now|mapRef];
      try discriminate Hv; cbn [step].
    + exact Hinv.
    + exact Hinv.
    + unfold startNewQuestion. destruct (geoData s); [|exact Hinv].
      destruct (generateAIHint_begin_frame host (nth_error l pick)
                  (setIsHintMinimized false
                     (setSelectedId None
                        (setFeedback None (setCurrentCountry (nth_error l pick) s)))))
        as (_ & _ & _ & Hf & _ & Hsel & _).
      unfold verdictCoherent. rewrite Hf, Hsel. reflexivity.
    + destruct (generateAIHint_settle_frame host feature response s)
        as (_ & _ & Hc & Hf & _ & Hsel & _).
      apply (verdictCoherent_same s); assumption.
    + destruct (handleCountryClick_cases host id nm now s)
        as [->|[->|(country & _ & _ & Hc & Hsel & (fb & Hfb & Hverdict & _) & _)]].
      * exact Hinv.
      * exact Hinv.
      * unfold verdictCoherent. rewrite Hfb. exists country, id. auto.
Qed.

(** X15: feedback, selection and target stay coherent.  In every state
    the component reaches, there is a selected identifier exactly when
    there is feedback, and then there is a target and the verdict shown is
    the comparison of the selected identifier with the target's. *)
Theorem verdict_matches_selection :
  forall (host : Host) (evs : list Event),
    verdictCoherent (run host initialState evs).
Proof.
  intros host evs.
  assert (Hgen : forall s, verdictCoherent s -> verdictCoherent (run host s evs)).
  { induction evs as [|ev evs IH]; intros s Hs; [exact Hs|].
    apply (IH (step host s ev)), verdictCoherent_step, Hs. }
  apply Hgen. reflexivity.
Qed.

Lemma regionsNamed_step (host : Host) (s : AppState) (ev : Event) :
  regionsNamed s -> regionsNamed (step host s ev).
Proof.
  intros Hinv. pose proof Hinv as [Hgeo Hcur].
  destruct (viewportEvent ev) eqn:Hv.
  - destruct (quizPart_fields _ _ (step_viewport_quiz host s ev Hv))
      as (_ & Hg & Hc & _).
    unfold regionsNamed. rewrite Hg, Hc. exact Hinv.
  - destruct ev as [features|uid|e|mapRef e|e|e|mapRef e| |pick|feature response|id nm now|mapRef];
      try discriminate Hv; cbn [step].
    + split; cbn [geoData currentCountry setLoading setGeoData].
      * intros l f Hl Hin. injection Hl as <-. apply (validFeatures_named features f Hin).
      * exact Hcur.
    + exact Hinv.
    + unfold startNewQuestion. destruct (geoData s) as [l|] eqn:Hg; [|exact Hinv].
      destruct (generateAIHint_begin_frame host (nth_error l pick)
                  (setIsHintMinimized false
                     (setSelectedId None
                        (setFeedback None (setCurrentCountry (nth_error l pick) s)))))
        as (_ & Hg' & Hc' & _).
      unfold regionsNamed. rewrite Hg', Hc'.
      cbn [geoData currentCountry setIsHintMinimized setSelectedId setFeedback
             setCurrentCountry].
      rewrite Hg. split.
      * intros l' f Hl Hin. injection Hl as <-. apply (proj1 Hinv l f Hg Hin).
      * intros f Hf. apply (proj1 Hinv l f Hg), (nth_error_In l pick), Hf.
    + destruct (generateAIHint_settle_frame host feature response s)
        as (_ & Hg & Hc & _).
      unfold regionsNamed. rewrite Hg, Hc. exact Hinv.
    + destruct (handleCountryClick_cases host id nm now s)
        as [->|[->|(country & Hc & _ & Hc' & _ & _ & _ & Hg & _)]].
      * exact Hinv.
      * exact Hinv.
      * unfold regionsNamed. rewrite Hg, Hc', <- Hc. exact Hinv.
Qed.

(** X16: the target is always a named region.  In every state the
    component reaches, the current target, if any, has [ADMIN] or [name]
    filled in, so the name shown for it is its own and not ['Unknown']. *)
Theorem target_is_named :
  forall (host : Host) (evs : list Event) (target : GeoFeature),
    currentCountry (run host initialState evs) = Some target ->
    hasName (Some (properties target)) = true /\
    In (Some (getEnglishName (properties target)))
       [ADMIN (properties target); name (properties target)].
Proof.
  intros host evs target Hc.
  assert (Hgen : forall s, regionsNamed s -> regionsNamed (run host s evs)).
  { clear Hc. induction evs as [|ev evs IH]; intros s Hs; [exact Hs|].
    apply (IH (step host s ev)), regionsNamed_step, Hs. }
  assert (Hinit : regionsNamed initialState)
    by (split; cbn; intros; discriminate).
  destruct (Hgen _ Hinit) as [_ Hcur].
  split; [apply Hcur, Hc | apply named_english, Hcur, Hc].
Qed.

Lemma target_is_named_witness :
  hasName (Some (properties japan)) = true /\
  In (Some (getEnglishName (properties japan)))
     [ADMIN (properties japan); name (properties japan)].
Proof.
  apply (target_is_named plainHost
           [GeoLoaded (Some [japanRaw]); StartNewQuestion 0;
            HintSettled japan (Parsed testHint)] japan).
  reflexivity.
Defined.

Lemma signedOut_step (host : Host) (s : AppState) (ev : Event) :
  signedOut ev = true ->
  user s = None /\ historyWrites s = [] ->
  user (step host s ev) = None /\ historyWrites (step host s ev) = [].
Proof.
  intros Hout [Hu Hw].
  destruct (viewportEvent ev) eqn:Hv.
  - destruct (quizPart_fields _ _ (step_viewport_quiz host s ev Hv))
      as (Hu' & _ & _ & _ & _ & _ & _ & _ & _ & Hw').
    rewrite Hu', Hw'. auto.
  - destruct ev as [features|uid|e|mapRef e|e|e|mapRef e| |pick|feature response|id nm now|mapRef];
      try discriminate Hv; cbn [step].
    + auto.
    + destruct uid; [discriminate Hout | auto].
    + unfold startNewQuestion. destruct (geoData s) as [l|]; [|auto].
      destruct (generateAIHint_begin_frame host (nth_error l pick)
                  (setIsHintMinimized false
                     (setSelectedId None
                        (setFeedback None (setCurrentCountry (nth_error l pick) s)))))
        as (Hu' & _ & _ & _ & _ & _ & Hw').
      rewrite Hu', Hw'. auto.
    + destruct (generateAIHint_settle_frame host feature response s)
        as (Hu' & _ & _ & _ & _ & _ & _ & Hw').
      rewrite Hu', Hw'. auto.
    + destruct (handleCountryClick_cases host id nm now s)
        as [->|[->|(country & _ & _ & _ & _ & _ & Hu' & _ & _ & Hw')]].
      * auto.
      * auto.
      * rewrite Hu', (Hw' Hu). auto.
Qed.

(** X17: nothing is written to the history store while nobody is signed
    in: over any events without a sign-in, however many answers are given,
    no document is handed to [addDoc]. *)
Theorem no_history_without_user :
  forall (host : Host) (evs : list Event),
    forallb signedOut evs = true ->
    historyWrites (run host initialState evs) = [].
Proof.
  intros host evs Hout.
  assert (Hgen : forall s, user s = None /\ historyWrites s = [] ->
                           user (run host s evs) = None /\
                           historyWrites (run host s evs) = []).
  { induction evs as [|ev evs IH]; intros s Hs; [exact Hs|].
    cbn [forallb] in Hout. apply andb_true_iff in Hout as [Hev Hrest].
    apply (IH Hrest (step host s ev)), signedOut_step; assumption. }
  apply Hgen. split; reflexivity.
Qed.

Lemma no_history_without_user_witness :
  historyWrites
    (run plainHost initialState
       [GeoLoaded (Some [japanRaw]); StartNewQuestion 0;
        HintSettled japan (Parsed testHint); clickJapan]) = [].
Proof.
  apply no_history_without_user. reflexivity.
Defined.

Lemma noKey_step (host : Host) (s : AppState) (ev : Event) :
  apiKey host = EmptyString ->
  hintRequests s = [] -> hintRequests (step host s ev) = [].
Proof.
  intros Hkey Hr.
  destruct (viewportEvent ev) eqn:Hv.
  - destruct (quizPart_fields _ _ (step_viewport_quiz host s ev Hv))
      as (_ & _ & _ & _ & _ & _ & _ & _ & Hr' & _).
    rewrite Hr'. exact Hr.
  - destruct ev as [features|uid|e|mapRef e|e|e|mapRef e| |pick|feature response|id nm now|mapRef];
      try discriminate Hv; cbn [step].
    + exact Hr.
    + exact Hr.
    + unfold startNewQuestion. destruct (geoData s) as [l|]; [|exact Hr].
      unfold generateAIHint_begin. rewrite Hkey.
      destruct (nth_error l pick); exact Hr.
    + destruct (generateAIHint_settle_frame host feature response s)
        as (_ & _ & _ & _ & _ & _ & Hr' & _).
      rewrite Hr'. exact Hr.
    + destruct (handleCountryClick_cases host id nm now s)
        as [->|[->|(country & _ & _ & _ & _ & _ & _ & _ & Hr' & _)]].
      * exact Hr.
      * exact Hr.
      * rewrite Hr'. exact Hr.
Qed.

(** X18: without an API key the hint service is never called, and a new
    question gets its fallback hint at once: after [startNewQuestion] on a
    picked region the hint is that region's fallback hint and nothing is
    loading. *)
Theorem no_request_without_key :
  forall (host : Host),
    apiKey host = EmptyString ->
    (forall evs, hintRequests (run host initialState evs) = []) /\
    (forall pick s regions region,
       geoData s = Some regions -> nth_error regions pick = Some region ->
       hint (startNewQuestion host pick s) = Some (buildFallbackHint host region) /\
       loading (startNewQuestion host pick s) = false).
Proof.
  intros host Hkey. split.
  - intros evs.
    assert (Hgen : forall s, hintRequests s = [] -> hintRequests (run host s evs) = []).
    { induction evs as [|ev evs IH]; intros s Hs; [exact Hs|].
      apply (IH (step host s ev)), noKey_step; assumption. }
    apply Hgen. reflexivity.
  - intros pick s regions region Hg Hpick.
    unfold startNewQuestion, generateAIHint_begin. rewrite Hg, Hpick, Hkey.
    split; reflexivity.
Qed.

Lemma no_request_without_key_witness :
  hintRequests
    (run (mkHost (fun code => code) None EmptyString) initialState
       [GeoLoaded (Some [japanRaw]); StartNewQuestion 0]) = [].
Proof.
  apply (proj1 (no_request_without_key (mkHost (fun code => code) None EmptyString)
                  eq_refl)).
Defined.

(** X19: how a hint request ends.  However it ends, loading is cleared
    and every other field of the state except the hint is left as it was:
    the collection, the target, feedback, score, selection, the panel
    flag, the transform, the pointer bookkeeping, the suppression flag and
    what was sent and written.  A rejected fetch and an unparsable text
    give the fallback hint of the region asked about; a parsed answer
    gives that answer or the fallback hint; a response without text leaves
    the hint as it was, which right after the request was started means no
    hint at all. *)
Theorem hint_request_outcomes :
  forall (host : Host) (feature : GeoFeature) (response : HintResponse) (s : AppState),
    let s' := generateAIHint_settle host feature response s in
    s' = {| user := user s;
            geoData := geoData s;
            currentCountry := currentCountry s;
            hint := hint s';
            loading := false;
            feedback := feedback s;
            score := score s;
            selectedId := selectedId s;
            isHintMinimized := isHintMinimized s;
            transform := transform s;
            pointers := pointers s;
            lastCenter := lastCenter s;
            lastDist := lastDist s;
            dragState := dragState s;
            suppressClick := suppressClick s;
            hintRequests := hintRequests s;
            historyWrites := historyWrites s |} /\
    (response = FetchRejected \/ response = ParseError ->
     hint s' = Some (buildFallbackHint host feature)) /\
    (forall parsed, response = Parsed parsed ->
     hint s' = Some parsed \/ hint s' = Some (buildFallbackHint host feature)) /\
    (response = NoText -> hint s' = hint s) /\
    (response = NoText -> nonEmpty (apiKey host) = true ->
     forall pick s0 regions,
       geoData s0 = Some regions -> nth_error regions pick = Some feature ->
       hint (generateAIHint_settle host feature response
               (startNewQuestion host pick s0)) = None).
Proof.
  intros host feature response s s'. unfold s', generateAIHint_settle.
  split; [destruct response; try reflexivity; destruct (_ || _)%bool; reflexivity|].
  split; [intros [->| ->]; reflexivity|].
  split; [intros parsed ->; destruct (_ || _)%bool; [right | left]; reflexivity|].
  split; [intros ->; reflexivity|].
  intros -> Hkey pick s0 regions Hg Hpick.
  unfold startNewQuestion, generateAIHint_begin. rewrite Hg, Hpick, Hkey. reflexivity.
Qed.

Lemma hint_request_outcomes_witness :
  hint (generateAIHint_settle plainHost japan ParseError roundStarted)
    = Some (buildFallbackHint plainHost japan) /\
  hint (generateAIHint_settle plainHost japan NoText
          (startNewQuestion plainHost 0 roundStarted)) = None.
Proof.
  destruct (hint_request_outcomes plainHost japan ParseError roundStarted)
    as (_ & Hfail & _).
  destruct (hint_request_outcomes plainHost japan NoText roundStarted)
    as (_ & _ & _ & _ & Hnone).
  split.
  - apply Hfail. right. reflexivity.
  - apply (Hnone eq_refl eq_refl 0%nat roundStarted [japan]); reflexivity.
Defined.

(** X20: starting a question on a picked region.  The picked region, a
    member of the loaded collection, becomes the target; feedback and
    selection are cleared and the hint panel is expanded; the score, the
    transform and the click-suppression flag are left as they are. *)
Theorem new_question_resets_round_only :
  forall (host : Host) (pick : nat) (s : AppState) (regions : list GeoFeature)
         (region : GeoFeature),
    geoData s = Some regions -> nth_error regions pick = Some region ->
    let s' := startNewQuestion host pick s in
    In region regions /\
    currentCountry s' = Some region /\
    feedback s' = None /\ selectedId s' = None /\ isHintMinimized s' = false /\
    score s' = score s /\ transform s' = transform s /\
    suppressClick s' = suppressClick s /\ geoData s' = geoData s.
Proof.
  intros host pick s regions region Hg Hpick s'.
  split; [apply (nth_error_In regions pick), Hpick|].
  unfold s', startNewQuestion, generateAIHint_begin. rewrite Hg, Hpick.
  destruct (nonEmpty (apiKey host)); repeat split; exact Hg.
Qed.

Lemma new_question_resets_round_only_witness :
  let s' := startNewQuestion plainHost 0 roundAnswered in
  currentCountry s' = Some japan /\ feedback s' = None /\
  score s' = score roundAnswered.
Proof.
  destruct (new_question_resets_round_only plainHost 0 roundAnswered [japan] japan
              eq_refl eq_refl) as (_ & Hc & Hf & _ & _ & Hs & _).
  auto.
Defined.

(* ================================================================== *)
(** ** Path builder *)

Lemma append_empty (a b : string) :
  (a ++ b)%string = EmptyString -> a = EmptyString /\ b = EmptyString.
Proof.
  destruct a; cbn; [auto | discriminate].
Qed.

Lemma join_empty (sep : string) (parts : list string) :
  sep <> EmptyString ->
  join sep parts = EmptyString -> parts = [] \/ parts = [EmptyString].
Proof.
  intros Hsep. destruct parts as [|part [|next rest]]; cbn [join]; intros H.
  - left. reflexivity.
  - right. rewrite H. reflexivity.
  - apply append_empty in H as [_ H]. apply append_empty in H as [H _]. contradiction.
Qed.

Lemma renderRing_nonEmpty (numberToString : R -> string) (ring : Ring) :
  renderRing numberToString ring <> EmptyString.
Proof. unfold renderRing. cbn. discriminate. Qed.

Lemma renderPolygon_empty (numberToString : R -> string) (poly : list Ring) :
  renderPolygon numberToString poly = EmptyString <-> poly = [].
Proof.
  split; [|intros ->; reflexivity].
  unfold renderPolygon. intros H.
  apply (join_empty " " _ ltac:(discriminate)) in H as [H|H].
  - destruct poly; [reflexivity | discriminate H].
  - destruct poly as [|ring [|? ?]]; discriminate H.
Qed.

Lemma outlineOf_nonEmpty (numberToString : R -> string) (g : Geometry) :
  nonEmpty (outlineOf numberToString g) = hasOutline g.
Proof.
  unfold nonEmpty.
  destruct (String.eqb_spec (outlineOf numberToString g) EmptyString) as [He|Hne];
    cbn [negb].
  - destruct g as [rings|polys]; cbn [outlineOf] in He.
    + apply renderPolygon_empty in He. rewrite He. reflexivity.
    + apply (join_empty " " _ ltac:(discriminate)) in He as [He|He].
      * destruct polys; [reflexivity | discriminate He].
      * destruct polys as [|poly [|? ?]]; try discriminate He.
        injection He as He. apply renderPolygon_empty in He. rewrite He. reflexivity.
  - destruct g as [[|ring rings]|[|[|ring poly] [|next polys]]]; try reflexivity;
      exfalso; apply Hne; reflexivity.
Qed.

(** X21: the drawable set.  The path builder yields one entry per region
    that has an outline, in the order of the loaded collection, carrying
    the region's identifier and display name and a non-empty outline;
    regions are left out exactly when their geometry is a polygon without
    rings or a multi-polygon with no polygon or with a single polygon
    without rings, and entries with equal identifiers are all kept. *)
Theorem pathData_keeps_order_and_drops_empty :
  forall (numberToString : R -> string) (host : Host) (features : list GeoFeature),
    let paths := pathData numberToString host (Some features) in
    map (fun p => (path_id p, path_name p)) paths =
      map (fun f => (getCountryId (properties f), getJapaneseName host (properties f)))
          (filter (fun f => hasOutline (geometry f)) features) /\
    Forall (fun p => nonEmpty (path_d p) = true) paths /\
    pathData numberToString host None = [].
Proof.
  intros numberToString host features. cbv zeta. cbn [pathData].
  split; [|split; [|reflexivity]].
  - induction features as [|f features IH]; [reflexivity|].
    cbn [flat_map filter]. rewrite outlineOf_nonEmpty.
    destruct (hasOutline (geometry f)); cbn [app map]; [f_equal|]; exact IH.
  - induction features as [|f features IH]; [constructor|].
    cbn [flat_map].
    destruct (nonEmpty (outlineOf numberToString (geometry f))) eqn:Hd; cbn [app];
      [constructor; [exact Hd | exact IH] | exact IH].
Qed.

(* ================================================================== *)
(** ** The viewBox variant *)

Lemma variant_clamp_in_range (v : R) : 1.5 <= Rmax 1.5 (Rmin 20 v) <= 20.
Proof.
  split; [apply Rmax_l|].
  apply Rmax_lub; [lra | apply Rmin_l].
Qed.

Lemma variant_clamp_id (v : R) : 1.5 <= v <= 20 -> Rmax 1.5 (Rmin 20 v) = v.
Proof.
  intros [Hlo Hhi]. rewrite Rmin_right by exact Hhi. apply Rmax_right, Hlo.
Qed.

Lemma variant_zoom_keeps_handler_coordinate
    (rendered prev : Transform) (rectWidth rectHeight cx cy factor : R) :
  let next := ViewBoxVariant.zoomAbout rendered rectWidth rectHeight cx cy factor prev in
  ViewBoxVariant.screenToSvg 800 rectWidth (tr_x next) (scale next) cx =
    ViewBoxVariant.screenToSvg 800 rectWidth (tr_x rendered) (scale rendered) cx /\
  ViewBoxVariant.screenToSvg 400 rectHeight (tr_y next) (scale next) cy =
    ViewBoxVariant.screenToSvg 400 rectHeight (tr_y rendered) (scale rendered) cy /\
  1.5 <= scale next <= 20.
Proof.
  unfold ViewBoxVariant.zoomAbout. cbv zeta. cbn [tr_x tr_y scale].
  set (n := Rmax 1.5 (Rmin 20 (scale prev * factor))).
  assert (Hn : 1.5 <= n <= 20) by apply variant_clamp_in_range.
  set (sx := ViewBoxVariant.screenToSvg 800 rectWidth (tr_x rendered) (scale rendered) cx).
  set (sy := ViewBoxVariant.screenToSvg 400 rectHeight (tr_y rendered) (scale rendered) cy).
  split; [|split; [|exact Hn]].
  - unfold ViewBoxVariant.screenToSvg at 1. set (q := cx / rectWidth). field. lra.
  - unfold ViewBoxVariant.screenToSvg at 1. set (q := cy / rectHeight). field. lra.
Qed.

(** On an element twice as wide as high the drawing fills the element, and
    the handler's conversion is what is drawn. *)
Lemma shown_on_wide_element (t : Transform) (rectHeight cx cy : R) :
  0 < rectHeight -> 0 < scale t ->
  shownX t (2 * rectHeight) rectHeight cx
    = ViewBoxVariant.screenToSvg 800 (2 * rectHeight) (tr_x t) (scale t) cx /\
  shownY t (2 * rectHeight) rectHeight cy
    = ViewBoxVariant.screenToSvg 400 rectHeight (tr_y t) (scale t) cy.
Proof.
  intros Hh Hs.
  unfold shownX, shownY, ViewBoxVariant.viewBox, ViewBoxVariant.screenToSvg.
  cbv beta iota zeta.
  replace (2 * rectHeight / (800 / scale t)) with (rectHeight / (400 / scale t))
    by (field; lra).
  rewrite Rmin_left by lra.
  split; field; lra.
Qed.

(** X22: the variant's zoom keeps what is drawn under the anchor when the
    map element is twice as wide as high, so that the [viewBox] fills it
    without letterboxing.  Whatever the factor, clamped or not, and
    whatever state the updater receives, the SVG coordinate drawn at the
    anchor under the new transform is the one drawn there under the
    rendered transform, whose scale lies in [[1.5, 20]]; and the new scale
    lies in [[1.5, 20]]. *)
Theorem variant_zoom_keeps_anchor :
  forall (rendered prev : Transform) (rectWidth rectHeight cx cy factor : R),
    0 < rectHeight -> rectWidth = 2 * rectHeight ->
    1.5 <= scale rendered <= 20 ->
    let next := ViewBoxVariant.zoomAbout rendered rectWidth rectHeight cx cy factor prev in
    shownX next rectWidth rectHeight cx = shownX rendered rectWidth rectHeight cx /\
    shownY next rectWidth rectHeight cy = shownY rendered rectWidth rectHeight cy /\
    1.5 <= scale next <= 20.
Proof.
  intros rendered prev rectWidth rectHeight cx cy factor Hh -> Hrendered next.
  destruct (variant_zoom_keeps_handler_coordinate rendered prev
              (2 * rectHeight) rectHeight cx cy factor) as (Hx & Hy & Hnext).
  fold next in Hx, Hy, Hnext.
  destruct (shown_on_wide_element next rectHeight cx cy Hh ltac:(lra)) as [-> ->].
  destruct (shown_on_wide_element rendered rectHeight cx cy Hh ltac:(lra)) as [-> ->].
  auto.
Qed.

Lemma variant_zoom_keeps_anchor_witness :
  let next := ViewBoxVariant.zoomAbout ViewBoxVariant.initialTransform
                800 400 300 200 2 ViewBoxVariant.initialTransform in
  shownX next 800 400 300 = shownX ViewBoxVariant.initialTransform 800 400 300 /\
  shownY next 800 400 200 = shownY ViewBoxVariant.initialTransform 800 400 200 /\
  1.5 <= scale next <= 20.
Proof.
  apply (variant_zoom_keeps_anchor ViewBoxVariant.initialTransform
           ViewBoxVariant.initialTransform 800 400 300 200 2).
  - lra.
  - lra.
  - cbn. lra.
Defined.

(** On a square element the drawing is letterboxed above and below, the
    handler's conversion is not what is drawn, and the zoom moves what is
    under the anchor: doubling the scale of the initial view about the
    middle of the top edge of an 800 by 800 element changes the SVG
    ordinate drawn there from -400/3 to -200/3. *)
Lemma variant_zoom_moves_anchor_when_letterboxed :
  let next := ViewBoxVariant.zoomAbout ViewBoxVariant.initialTransform
                800 800 400 0 2 ViewBoxVariant.initialTransform in
  shownY ViewBoxVariant.initialTransform 800 800 0 = - 400 / 3 /\
  shownY next 800 800 0 = - 200 / 3.
Proof.
  unfold shownY, ViewBoxVariant.viewBox, ViewBoxVariant.zoomAbout,
    ViewBoxVariant.screenToSvg, ViewBoxVariant.initialTransform.
  cbv beta iota zeta. cbn [tr_x tr_y scale].
  replace (Rmax 1.5 (Rmin 20 (1.5 * 2))) with 3
    by (rewrite Rmin_right by lra; rewrite Rmax_right by lra; lra).
  split.
  - rewrite Rmin_left by lra. lra.
  - rewrite Rmin_left by lra. lra.
Qed.

(** X23: the two variants zoom alike.  When the map element is 800 by 400
    pixels, the handler's rendered transform is the current one and the
    requested scale is inside [[1.5, 20]], the variant's updater returns
    the transform of the primary one. *)
Theorem variant_zoom_agrees_with_primary :
  forall (prev : Transform) (cx cy factor : R),
    1.5 <= scale prev * factor <= 20 ->
    ViewBoxVariant.zoomAbout prev 800 400 cx cy factor prev
    = zoomAbout cx cy factor prev.
Proof.
  intros prev cx cy factor Hrange.
  assert (Hp : scale prev <> 0) by (intros Hz; rewrite Hz in Hrange; lra).
  assert (Hf : factor <> 0) by (intros Hz; rewrite Hz in Hrange; lra).
  assert (Hpf : scale prev * factor <> 0) by lra.
  apply transform_eq;
    unfold ViewBoxVariant.zoomAbout, ViewBoxVariant.screenToSvg, zoomAbout;
    cbv zeta; cbn [tr_x tr_y scale];
    rewrite variant_clamp_id by exact Hrange;
    rewrite clamp_id by lra;
    try reflexivity; field; repeat split; first [assumption | lra].
Qed.

Lemma variant_zoom_agrees_with_primary_witness :
  ViewBoxVariant.zoomAbout (mkTransform 40 (-25) 2) 800 400 300 200 3
    (mkTransform 40 (-25) 2)
  = zoomAbout 300 200 3 (mkTransform 40 (-25) 2).
Proof.
  apply variant_zoom_agrees_with_primary. cbn. lra.
Defined.

(** X24: the variant's fit.  The scale lies in [[1.5, 20]] and the centre
    of the region's box is the centre of the new [viewBox], clamped or
    not; and when the scale needed is inside that range and the container
    has positive size, the box together with the padding allowance of
    both sides fits into the new [viewBox] on both axes. *)
Theorem variant_fit_centres_and_pads :
  forall (containerWidth containerHeight : R) (bounds : Bounds),
    let t := ViewBoxVariant.fitTransform containerWidth containerHeight bounds in
    let width := Rmax 1 (maxX bounds - minX bounds) in
    let height := Rmax 1 (maxY bounds - minY bounds) in
    1.5 <= scale t <= 20 /\
    (let '(x, y, w, h) := ViewBoxVariant.viewBox t in
     x + w / 2 = (minX bounds + maxX bounds) / 2 /\
     y + h / 2 = (minY bounds + maxY bounds) / 2) /\
    (0 < containerWidth -> 0 < containerHeight ->
     1.5 <= Rmin (800 / (width + 40 * 2 / containerWidth * 800))
                 (400 / (height + 40 * 2 / containerHeight * 400)) <= 20 ->
     width + 40 * 2 / containerWidth * 800 <= 800 / scale t /\
     height + 40 * 2 / containerHeight * 400 <= 400 / scale t).
Proof.
  intros cw ch b t width height.
  assert (Hn : 1.5 <= scale t <= 20) by apply variant_clamp_in_range.
  split; [exact Hn|]. split.
  - unfold ViewBoxVariant.viewBox.
    assert (Hx : tr_x t = - ((minX b + maxX b) / 2 - 800 / scale t / 2) * scale t)
      by reflexivity.
    assert (Hy : tr_y t = - ((minY b + maxY b) / 2 - 400 / scale t / 2) * scale t)
      by reflexivity.
    rewrite Hx, Hy. split; field; lra.
  - intros Hcw Hch Hrange.
    assert (Hs : scale t = Rmin (800 / (width + 40 * 2 / cw * 800))
                                (400 / (height + 40 * 2 / ch * 400))).
    { unfold t, ViewBoxVariant.fitTransform. cbv zeta. cbn [scale].
      fold width height. apply variant_clamp_id, Hrange. }
    assert (Hw : 1 <= width) by apply Rmax_l.
    assert (Hh : 1 <= height) by apply Rmax_l.
    assert (Hpx : 0 < 40 * 2 / cw * 800).
    { apply Rmult_lt_0_compat; [|lra]. apply Rdiv_lt_0_compat; lra. }
    assert (Hpy : 0 < 40 * 2 / ch * 400).
    { apply Rmult_lt_0_compat; [|lra]. apply Rdiv_lt_0_compat; lra. }
    set (dx := width + 40 * 2 / cw * 800) in *.
    set (dy := height + 40 * 2 / ch * 400) in *.
    assert (Hdx : 0 < dx) by (unfold dx; lra).
    assert (Hdy : 0 < dy) by (unfold dy; lra).
    assert (Hpos : 0 < scale t) by lra.
    assert (Hsx : scale t <= 800 / dx) by (rewrite Hs; apply Rmin_l).
    assert (Hsy : scale t <= 400 / dy) by (rewrite Hs; apply Rmin_r).
    split.
    + apply (Rmult_le_reg_r (scale t)); [exact Hpos|].
      replace (800 / scale t * scale t) with 800 by (field; lra).
      apply (Rmult_le_compat_l dx) in Hsx; [|lra].
      replace (dx * (800 / dx)) with 800 in Hsx by (field; lra). exact Hsx.
    + apply (Rmult_le_reg_r (scale t)); [exact Hpos|].
      replace (400 / scale t * scale t) with 400 by (field; lra).
      apply (Rmult_le_compat_l dy) in Hsy; [|lra].
      replace (dy * (400 / dy)) with 400 in Hsy by (field; lra). exact Hsy.
Qed.

Lemma variant_fit_centres_and_pads_witness :
  let t := ViewBoxVariant.fitTransform 800 400 (mkBounds 100 280 50 110) in
  180 + 40 * 2 / 800 * 800 <= 800 / scale t /\
  60 + 40 * 2 / 400 * 400 <= 400 / scale t.
Proof.
  pose proof (variant_fit_centres_and_pads 800 400 (mkBounds 100 280 50 110)) as H.
  cbv zeta in H. cbn [minX maxX minY maxY] in H.
  replace (Rmax 1 (280 - 100)) with 180 in H by (rewrite Rmax_right; lra).
  replace (Rmax 1 (110 - 50)) with 60 in H by (rewrite Rmax_right; lra).
  destruct H as (_ & _ & H).
  apply H; try lra.
  replace (800 / (180 + 40 * 2 / 800 * 800)) with (40 / 13) by (field; lra).
  replace (400 / (60 + 40 * 2 / 400 * 400)) with (20 / 7) by (field; lra).
  rewrite Rmin_right; lra.
Defined.

Lemma variant_toGeoFeature (raw : RawGeoFeature) :
  ViewBoxVariant.toGeoFeature raw =
  match toGeoFeature raw with
  | Some f => if ViewBoxVariant.isExcluded (properties f) then None else Some f
  | None => None
  end.
Proof.
  unfold ViewBoxVariant.toGeoFeature, toGeoFeature.
  destruct (isGeometrySupported _); [|reflexivity].
  destruct (hasName _); reflexivity.
Qed.

(** X25: the variant's collection is the primary one without the
    excluded regions.  It holds, in the same order, exactly the regions
    the primary loader keeps whose name is not on the exclusion list and
    whose ISO alpha-3 code is neither ['-99'] nor ['-1']. *)
Theorem variant_loader_filters_primary :
  forall (features : option (list RawGeoFeature)),
    ViewBoxVariant.validFeatures features =
    filter (fun f => negb (ViewBoxVariant.isExcluded (properties f)))
           (validFeatures features).
Proof.
  intros features. unfold ViewBoxVariant.validFeatures, validFeatures.
  induction (rawFeatures features) as [|raw raws IH]; [reflexivity|].
  cbn [map keepNonNull]. rewrite variant_toGeoFeature.
  destruct (toGeoFeature raw) as [f|]; [|exact IH].
  cbn [keepNonNull filter].
  destruct (ViewBoxVariant.isExcluded (properties f)); cbn [negb keepNonNull];
    [exact IH | f_equal; exact IH].
Qed.

(* ================================================================== *)
(** ** Two-pointer gestures *)

Lemma map_set_has (id k : Z) (v : Point) (m : PointerMap) :
  map_has k m = true -> map_has k (map_set id v m) = true.
Proof.
  intros Hk. apply map_has_In. rewrite map_set_keys.
  apply map_has_In in Hk.
  destruct (map_has id m); [exact Hk | apply in_or_app; left; exact Hk].
Qed.

Lemma handlePointerMove_two (mapRef : option MapDiv) (e : PointerEvent) (s : AppState)
    (last : Point) :
  lastCenter s = Some last ->
  map_has (pointerId e) (pointers s) = true ->
  map_size (pointers s) = 2%nat ->
  let pts := map_set (pointerId e) (mkPoint (clientX e) (clientY e)) (pointers s) in
  let s' := handlePointerMove mapRef e s in
  pointers s' = pts /\ map_size pts = 2%nat /\
  lastDist s' = getDist pts /\ lastCenter s' = Some (getCenter pts) /\
  moved (dragState s') = true.
Proof.
  intros Hl Hhas Hsize pts s'.
  assert (Hpts : map_size pts = 2%nat)
    by (unfold pts; rewrite map_set_size, Hhas; exact Hsize).
  unfold s', handlePointerMove. rewrite Hl, Hhas. cbn [negb]. fold pts.
  rewrite Hpts. cbn [Nat.eqb].
  destruct mapRef as [div|]; [|repeat split; exact Hpts].
  cbn [lastDist setDragState setPointers].
  destruct (Rgt_dec (lastDist s) 0); repeat split; exact Hpts.
Qed.

(** X26: during a two-finger gesture the pinch baseline is the current
    finger distance.  The pointer-down that brings the set to two stores
    the distance of the two pointers, and every move while exactly two
    pointers are held stores the new distance and the new centroid and
    marks the drag as moved, whether or not it could zoom. *)
Theorem pinch_baseline_tracks_fingers :
  forall (mapRef : option MapDiv) (e : PointerEvent) (s : AppState),
    (map_size (map_set (pointerId e) (mkPoint (clientX e) (clientY e)) (pointers s))
       = 2%nat ->
     lastDist (handlePointerDown e s) = getDist (pointers (handlePointerDown e s))) /\
    (forall last,
       lastCenter s = Some last ->
       map_has (pointerId e) (pointers s) = true ->
       map_size (pointers s) = 2%nat ->
       let s' := handlePointerMove mapRef e s in
       lastDist s' = getDist (pointers s') /\
       lastCenter s' = Some (getCenter (pointers s')) /\
       map_size (pointers s') = 2%nat /\
       moved (dragState s') = true).
Proof.
  intros mapRef e s. split.
  - intros Hsize. unfold handlePointerDown. rewrite Hsize. reflexivity.
  - intros last Hl Hhas Hsize.
    destruct (handlePointerMove_two mapRef e s last Hl Hhas Hsize)
      as (Hp & Hs & Hd & Hc & Hm).
    cbv zeta. rewrite Hp. auto.
Qed.

Lemma pinch_baseline_tracks_fingers_witness :
  lastDist twoFingers = getDist (pointers twoFingers) /\
  let s' := handlePointerMove None (pointerAt 2 6 8) twoFingers in
  lastDist s' = getDist (pointers s').
Proof.
  split.
  - apply (proj1 (pinch_baseline_tracks_fingers None (pointerAt 2 3 4)
                    (handlePointerDown (pointerAt 1 0 0) initialState))).
    reflexivity.
  - apply (proj2 (pinch_baseline_tracks_fingers None (pointerAt 2 6 8) twoFingers)
             (mkPoint ((0 + 3) / 2) ((0 + 4) / 2))); reflexivity.
Defined.

(** X27: pinch moves compose.  Two successive moves of a two-finger
    gesture that the clamp does not cut scale by the ratio of the last
    finger distance to the distance before the first move: the
    intermediate distance cancels. *)
Theorem pinch_moves_compose :
  forall (div : MapDiv) (e1 e2 : PointerEvent) (s : AppState) (last : Point),
    lastCenter s = Some last ->
    map_has (pointerId e1) (pointers s) = true ->
    map_has (pointerId e2) (pointers s) = true ->
    map_size (pointers s) = 2%nat ->
    let s1 := handlePointerMove (Some div) e1 s in
    let s2 := handlePointerMove (Some div) e2 s1 in
    lastDist s > 0 ->
    getDist (pointers s1) > 0 ->
    1 <= scale (transform s) * (getDist (pointers s1) / lastDist s) <= 20 ->
    1 <= scale (transform s) * (getDist (pointers s2) / lastDist s) <= 20 ->
    scale (transform s2) = scale (transform s) * (getDist (pointers s2) / lastDist s).
Proof.
  intros div e1 e2 s last Hl Hh1 Hh2 Hsize s1 s2 Hd0 Hd1 Hr1 Hr2.
  destruct (handlePointerMove_two (Some div) e1 s last Hl Hh1 Hsize)
    as (Hp1 & Hs1 & Hld1 & Hc1 & _).
  fold s1 in Hp1, Hld1, Hc1.
  assert (Hh2' : map_has (pointerId e2) (pointers s1) = true)
    by (rewrite Hp1; apply map_set_has, Hh2).
  assert (Hsize1 : map_size (pointers s1) = 2%nat) by (rewrite Hp1; exact Hs1).
  destruct (handlePointerMove_two (Some div) e2 s1 _ Hc1 Hh2' Hsize1)
    as (Hp2 & Hs2 & _).
  fold s2 in Hp2.
  assert (Hld1' : lastDist s1 = getDist (pointers s1)) by (rewrite Hp1; exact Hld1).
  assert (Ht1 : scale (transform s1)
                = scale (transform s) * (getDist (pointers s1) / lastDist s)).
  { unfold s1.
    rewrite (handlePointerMove_pinch div e1 s last Hl Hh1 Hs1 Hd0).
    unfold zoomAbout; cbn [scale]. rewrite <- Hp1. fold s1. apply clamp_id, Hr1. }
  assert (Hd1' : lastDist s1 > 0) by (rewrite Hld1'; exact Hd1).
  unfold s2 at 1.
  rewrite (handlePointerMove_pinch div e2 s1 _ Hc1 Hh2' Hs2 Hd1').
  unfold zoomAbout; cbn [scale]. rewrite <- Hp2, Ht1, Hld1'.
  replace (scale (transform s) * (getDist (pointers s1) / lastDist s)
           * (getDist (pointers s2) / getDist (pointers s1)))
    with (scale (transform s) * (getDist (pointers s2) / lastDist s))
    by (field; split; lra).
  apply clamp_id, Hr2.
Qed.

Lemma twoFingers_dist_at (x y d : R) :
  0 <= d -> x * x + y * y = d * d ->
  getDist (map_set 2 (mkPoint x y) (pointers twoFingers)) = d.
Proof.
  intros Hd Heq. cbn. apply hypot_eq; [exact Hd | lra].
Qed.

Lemma pinch_moves_compose_witness :
  let s1 := handlePointerMove (Some plainDiv) (pointerAt 2 6 8) twoFingers in
  let s2 := handlePointerMove (Some plainDiv) (pointerAt 2 9 12) s1 in
  scale (transform s2)
  = scale (transform twoFingers) * (getDist (pointers s2) / lastDist twoFingers).
Proof.
  pose proof (handlePointerMove_two (Some plainDiv) (pointerAt 2 6 8) twoFingers
                (mkPoint ((0 + 3) / 2) ((0 + 4) / 2)) eq_refl eq_refl eq_refl)
    as (Hp1 & _ & _ & Hc1 & _).
  set (s1 := handlePointerMove (Some plainDiv) (pointerAt 2 6 8) twoFingers) in *.
  assert (Hd1 : getDist (pointers s1) = 10)
    by (rewrite Hp1; apply (twoFingers_dist_at 6 8 10); lra).
  assert (Hh2 : map_has 2 (pointers s1) = true) by (rewrite Hp1; reflexivity).
  assert (Hsz : map_size (pointers s1) = 2%nat) by (rewrite Hp1; reflexivity).
  pose proof (handlePointerMove_two (Some plainDiv) (pointerAt 2 9 12) s1 _
                Hc1 Hh2 Hsz) as (Hp2 & _).
  set (s2 := handlePointerMove (Some plainDiv) (pointerAt 2 9 12) s1) in *.
  assert (Hd2 : getDist (pointers s2) = 15).
  { rewrite Hp2, Hp1. cbn. apply hypot_eq; lra. }
  cbv zeta.
  apply (pinch_moves_compose plainDiv (pointerAt 2 6 8) (pointerAt 2 9 12) twoFingers
           (mkPoint ((0 + 3) / 2) ((0 + 4) / 2)));
    try reflexivity; fold s1; fold s2;
    rewrite ?Hd1, ?Hd2, ?twoFingers_lastDist; cbn; lra.
Defined.

(** X28: a two-finger touch is never a tap.  From a state without
    pointers, once a second pointer has gone down, the first release
    raises the click-suppression flag, whether or not anything moved. *)
Theorem two_finger_touch_suppresses_click :
  forall (a b up : PointerEvent) (s : AppState),
    pointers s = [] ->
    pointerId a <> pointerId b ->
    suppressClick (handlePointerUp up (handlePointerDown b (handlePointerDown a s)))
      = true.
Proof.
  intros a b up s Hp Hab.
  rewrite handlePointerUp_suppressClick.
  assert (Hm : moved (dragState (handlePointerDown b (handlePointerDown a s))) = true).
  { unfold handlePointerDown at 1.
    assert (Hpa : pointers (handlePointerDown a s)
                  = [(pointerId a, mkPoint (clientX a) (clientY a))]).
    { unfold handlePointerDown. rewrite Hp. reflexivity. }
    rewrite Hpa. cbn [map_set].
    destruct (Z.eqb_spec (pointerId a) (pointerId b)) as [Heq|_]; [contradiction|].
    reflexivity. }
  rewrite Hm. reflexivity.
Qed.

Lemma two_finger_touch_suppresses_click_witness :
  suppressClick (handlePointerUp (pointerAt 2 3 4) twoFingers) = true.
Proof.
  apply (two_finger_touch_suppresses_click (pointerAt 1 0 0) (pointerAt 2 3 4)
           (pointerAt 2 3 4) initialState eq_refl).
  discriminate.
Defined.

(* ================================================================== *)
(** ** More on the coordinate filter *)

Lemma occursIn_embedded (term value before after : string) :
  occursIn term value -> occursIn term (before ++ value ++ after).
Proof.
  intros (b & a & ->). exists (before ++ b)%string, (a ++ after)%string.
  clear. induction before as [|c before IH]; cbn [append].
  - induction b as [|c b IHb]; cbn [append]; [|rewrite IHb; reflexivity].
    induction term as [|c term IHt]; cbn [append]; [reflexivity|].
    rewrite IHt. reflexivity.
  - rewrite IH. reflexivity.
Qed.

(** X29: the coordinate filter cannot be talked around.  A text that
    contains a flagged text anywhere inside is flagged too, and a text is
    let through only if its main explanation and its summary are both
    free of every coordinate term. *)
Theorem coordinate_filter_is_contextual :
  forall (value before after : string),
    (isCoordinateHint value = true ->
     isCoordinateHint (before ++ value ++ after) = true) /\
    (isCoordinateHint (before ++ value ++ after) = false ->
     isCoordinateHint value = false).
Proof.
  intros value before after.
  assert (Hup : isCoordinateHint value = true ->
                isCoordinateHint (before ++ value ++ after) = true).
  { intros H. apply isCoordinateHint_occurs in H as (term & Hin & Hocc).
    apply isCoordinateHint_occurs. exists term. split; [exact Hin|].
    apply occursIn_embedded, Hocc. }
  split; [exact Hup|].
  intros Hfalse. destruct (isCoordinateHint value); [|reflexivity].
  rewrite (Hup eq_refl) in Hfalse. discriminate Hfalse.
Qed.

Lemma coordinate_filter_is_contextual_witness :
  isCoordinateHint ("ヒント: " ++ "北緯35°" ++ " です") = true.
Proof.
  apply (proj1 (coordinate_filter_is_contextual "北緯35°" "ヒント: " " です")).
  reflexivity.
Defined.
